(** * shadow-ai-hunter: the normalisation-and-matching pipeline

    A shallow embedding of [analyzer/analyzer.go], of the three log
    parsers of package [parsers] (Squid, DNS, CSV), of the choice of a
    parser and the loop over the files in [main.go], and of the CSV
    report of [reporter/reporter.go], with the properties of the
    specification stated over it.

    Go strings are byte strings; they are modelled as [string] (a list
    of 8-bit characters).  The functions of Go's [strings] package are
    modelled on ASCII text: case folding touches the bytes ['A'..'Z']
    only and white space is the six ASCII space characters.  Go's [int]
    is modelled as a 64-bit two's-complement integer inside [Z].  The
    line scanner of [bufio] is modelled on the bytes of a file, with the
    limit it puts on the length of a line, and [encoding/csv] by what a
    record is when it has been written and read back. *)

From Stdlib Require Import ZArith Ascii String List Lia Bool.
From stdpp Require Import gmap strings list fin_maps.

Local Open Scope string_scope.
Local Open Scope Z_scope.

(** ** Go's [strings] package (ASCII) *)

Module strings.

(** [unicode.ToLower] on one byte of ASCII text. *)
Definition lowerByte (c : ascii) : ascii :=
  let n := nat_of_ascii c in
  if ((65 <=? n) && (n <=? 90))%nat then ascii_of_nat (n + 32) else c.

(** [strings.ToLower]. *)
Fixpoint ToLower (s : string) : string :=
  match s with
  | EmptyString => EmptyString
  | String c r => String (lowerByte c) (ToLower r)
  end.

(** [strings.Split(s, sep)] for a one-byte separator: the pieces of [s]
    between the occurrences of [sep]; always at least one piece (the
    empty string splits into one empty piece). *)
Fixpoint Split (s : string) (sep : ascii) : list string :=
  match s with
  | EmptyString => [EmptyString]
  | String c r =>
      if Ascii.eqb c sep then EmptyString :: Split r sep
      else match Split r sep with
           | p :: ps => String c p :: ps
           | [] => [String c EmptyString]
           end
  end.

(** [strings.Join(elems, sep)]. *)
Fixpoint Join (elems : list string) (sep : string) : string :=
  match elems with
  | [] => EmptyString
  | [e] => e
  | e :: rest => e ++ sep ++ Join rest sep
  end.

(** ASCII white space, as [unicode.IsSpace] sees it. *)
Definition isSpace (c : ascii) : bool :=
  let n := nat_of_ascii c in
  ((9 <=? n) && (n <=? 13) || (n =? 32))%nat.

(** [strings.Fields]: the maximal runs of non-space bytes. *)
Fixpoint Fields (s : string) : list string :=
  match s with
  | EmptyString => []
  | String c r =>
      if isSpace c then Fields r
      else match r with
           | EmptyString => [String c EmptyString]
           | String c' _ =>
               if isSpace c' then String c EmptyString :: Fields r
               else match Fields r with
                    | f :: fs => String c f :: fs
                    | [] => [String c EmptyString]
                    end
           end
  end.

Fixpoint trimLeft (s : string) : string :=
  match s with
  | EmptyString => EmptyString
  | String c r => if isSpace c then trimLeft r else s
  end.

Fixpoint trimRight (s : string) : string :=
  match s with
  | EmptyString => EmptyString
  | String c r =>
      let r' := trimRight r in
      if isSpace c && String.eqb r' EmptyString then EmptyString else String c r'
  end.

(** [strings.TrimSpace]. *)
Definition TrimSpace (s : string) : string := trimRight (trimLeft s).

(** [strings.HasPrefix]. *)
Definition HasPrefix (s pre : string) : bool := String.prefix pre s.

(** [s[n:]] and [s[:n]]. *)
Fixpoint sliceFrom (n : nat) (s : string) : string :=
  match n, s with
  | O, _ => s
  | S n', String _ r => sliceFrom n' r
  | S _, EmptyString => EmptyString
  end.

Fixpoint sliceTo (n : nat) (s : string) : string :=
  match n, s with
  | S n', String c r => String c (sliceTo n' r)
  | _, _ => EmptyString
  end.

(** The first position at which [substr] occurs in [s]. *)
Fixpoint indexOf (s substr : string) : option nat :=
  if String.prefix substr s then Some O
  else match s with
       | EmptyString => None
       | String _ r => S <$> indexOf r substr
       end.

(** [strings.Index]: that position, or [-1]. *)
Definition Index (s substr : string) : Z :=
  match indexOf s substr with
  | Some n => Z.of_nat n
  | None => -1
  end.

(** [strings.Contains]. *)
Definition Contains (s substr : string) : bool := 0 <=? Index s substr.

(** [strings.HasSuffix] and [strings.TrimSuffix]. *)
Definition HasSuffix (s suffix : string) : bool :=
  ((String.length suffix <=? String.length s)%nat
   && String.eqb (sliceFrom (String.length s - String.length suffix) s) suffix).

Definition TrimSuffix (s suffix : string) : string :=
  if HasSuffix s suffix
  then sliceTo (String.length s - String.length suffix) s
  else s.

(** [strings.SplitN(s, sep, 2)] for a non-empty [sep]: [s] cut at the
    first occurrence of [sep], or [s] alone. *)
Definition SplitN2 (s sep : string) : list string :=
  match indexOf s sep with
  | Some i => [sliceTo i s; sliceFrom (i + String.length sep) s]
  | None => [s]
  end.

End strings.

(** ** Go's [strconv.ParseInt(s, 10, 64)] *)

Module strconv.

Definition isDigit (c : ascii) : bool :=
  let n := nat_of_ascii c in ((48 <=? n) && (n <=? 57))%nat.

(** The two errors of a conversion: [ErrSyntax] and [ErrRange]. *)
Inductive NumError : Type := ErrSyntax | ErrRange.

(** The largest [uint64]. *)
Definition maxVal : Z := 2 ^ 64 - 1.

(** The loop of [ParseUint(s, 10, 64)] from the number [n] read so far.
    A byte that is no digit ends it with a syntax error and 0; a digit
    that takes the number past 64 bits ends it at once with a range
    error and the largest value, whatever follows. *)
Fixpoint digits (s : string) (n : Z) : Z * option NumError :=
  match s with
  | EmptyString => (n, None)
  | String c r =>
      if isDigit c then
        if maxVal / 10 + 1 <=? n then (maxVal, Some ErrRange)
        else
          let n1 := n * 10 + (Z.of_nat (nat_of_ascii c) - 48) in
          if maxVal <? n1 then (maxVal, Some ErrRange) else digits r n1
      else (0, Some ErrSyntax)
  end.

(** The value and whether the error is nil: [0] on a syntax error, the
    nearest bound on a range error. *)
Definition ParseInt (s : string) : Z * bool :=
  let '(neg, ds) :=
    match s with
    | String "+" r => (false, r)
    | String "-" r => (true, r)
    | _ => (false, s)
    end in
  match ds with
  | EmptyString => (0, false)
  | _ =>
      match digits ds 0 with
      | (_, Some ErrSyntax) => (0, false)
      | (un, _) =>
          if negb neg && (2 ^ 63 <=? un) then (2 ^ 63 - 1, false)
          else if neg && (2 ^ 63 <? un) then (- 2 ^ 63, false)
          else (if neg then - un else un, true)
      end
  end.

End strconv.

(** ** Go's [int] *)

Definition MaxInt : Z := 2 ^ 63 - 1.

(** Two's-complement wrap-around of a 64-bit signed integer. *)
Definition wrapInt (z : Z) : Z := (z + 2 ^ 63) mod 2 ^ 64 - 2 ^ 63.

(** [len(s)] of a slice. *)
Definition len {A : Type} (s : list A) : Z := Z.of_nat (length s).

(** ** analyzer.go: the service catalogue *)

(** [type AIService struct]. *)
Record AIService : Type := mkAIService {
  Name : string;
  Category : string;
  Domains : list string
}.

(** The zero value [AIService{}]. *)
Definition zeroAIService : AIService := mkAIService "" "" [].

(** [type servicesFile struct]. *)
Record servicesFile : Type := mkServicesFile {
  Services : list AIService
}.

(** [type Analyzer struct]: [domainMap] sends a domain to its service. *)
Record Analyzer : Type := mkAnalyzer {
  domainMap : gmap string AIService
}.

(** What [os.ReadFile] and [json.Unmarshal] make of a path: the file
    cannot be read, it does not decode, or the decoded content. *)
Inductive Loaded (A : Type) : Type :=
| Unreadable : Loaded A
| Malformed : Loaded A
| Content : A -> Loaded A.
Arguments Unreadable {A}.
Arguments Malformed {A}.
Arguments Content {A} _.

Inductive LoadError : Type :=
| ErrReadingServices
| ErrParsingServices
| ErrReadingCustom
| ErrParsingCustom.

(** The inner loop of [New] and [LoadCustomDomains]:
    [for _, domain := range svc.Domains { m[strings.ToLower(domain)] = svc }]. *)
Definition insertDomains (svc : AIService) (m : gmap string AIService)
  : gmap string AIService :=
  fold_left (fun m domain => <[strings.ToLower domain := svc]> m) (Domains svc) m.

(** The outer loop: [for _, svc := range sf.Services { ... }]. *)
Definition insertServices (svcs : list AIService) (m : gmap string AIService)
  : gmap string AIService :=
  fold_left (fun m svc => insertDomains svc m) svcs m.

(** [New(servicesPath)]: the analyzer of a services file, or an error. *)
Definition New (file : Loaded servicesFile) : Analyzer + LoadError :=
  match file with
  | Unreadable => inr ErrReadingServices
  | Malformed => inr ErrParsingServices
  | Content sf => inl (mkAnalyzer (insertServices (Services sf) ∅))
  end.

(** [LoadCustomDomains(path)] on the receiver [a]: the
    receiver is updated in place, so the analyzer after the call is
    returned beside the error. *)
Definition LoadCustomDomains (file : Loaded servicesFile) (a : Analyzer)
  : Analyzer * option LoadError :=
  match file with
  | Unreadable => (a, Some ErrReadingCustom)
  | Malformed => (a, Some ErrParsingCustom)
  | Content sf => (mkAnalyzer (insertServices (Services sf) (domainMap a)), None)
  end.

(** ** analyzer.go: the matcher *)

(** The loop of [matchDomain] from index [i], with [n] iterations left:
    [parent := strings.Join(parts[i:], "."); if svc, ok := a.domainMap[parent]; ok { return }]. *)
Fixpoint matchParents (m : gmap string AIService) (parts : list string)
    (i n : nat) : option AIService :=
  match n with
  | O => None
  | S n' =>
      let parent := strings.Join (drop i parts) "." in
      match m !! parent with
      | Some svc => Some svc
      | None => matchParents m parts (S i) n'
      end
  end.

(** [matchDomain(domain)] on the receiver [a].
    The loop [for i := 1; i < len(parts)-1; i++] runs [len(parts) - 2]
    times when [len(parts) >= 2] and not at all otherwise. *)
Definition matchDomain (a : Analyzer) (domain : string) : AIService * bool :=
  let domain := strings.ToLower domain in
  match domainMap a !! domain with
  | Some svc => (svc, true)
  | None =>
      let parts := strings.Split domain "." in
      match matchParents (domainMap a) parts 1 (length parts - 2) with
      | Some svc => (svc, true)
      | None => (zeroAIService, false)
      end
  end.

(** ** Go's [time] package *)

(** A [time.Time] by its civil date and clock. *)
Record Time : Type := mkTime {
  Year : Z;
  Month : Z;
  Day : Z;
  Hour : Z;
  Minute : Z;
  Second : Z;
  Nanosecond : Z
}.

(** The zero value [time.Time{}]: 1 January of year 1, 00:00:00 UTC. *)
Definition zeroTime : Time := mkTime 1 1 1 0 0 0 0.

Definition isLeap (year : Z) : bool :=
  (year mod 4 =? 0) && (negb (year mod 100 =? 0) || (year mod 400 =? 0)).

(** The number of days of month [m] in [year] ([time.daysIn]). *)
Definition daysIn (m year : Z) : Z :=
  if m =? 2 then (if isLeap year then 29 else 28)
  else if (m =? 4) || (m =? 6) || (m =? 9) || (m =? 11) then 30
  else 31.

(** [t.AddDate(years, 0, 0)], which is
    [Date(year+years, month, day, hour, min, sec, nsec, loc)].  On the
    fields of a valid [t] the normalisation that [Date] performs has one
    case only: a day past the end of the month in the new year moves
    into the next month (never out of December, which has 31 days). *)
Definition AddDate (t : Time) (years : Z) : Time :=
  let y := Year t + years in
  if Day t <=? daysIn (Month t) y
  then mkTime y (Month t) (Day t) (Hour t) (Minute t) (Second t) (Nanosecond t)
  else mkTime y (Month t + 1) (Day t - daysIn (Month t) y)
              (Hour t) (Minute t) (Second t) (Nanosecond t).

(** The layouts the parsers name. *)
Definition RFC3339 : string := "2006-01-02T15:04:05Z07:00".
Definition syslogLayout : string := "Jan 2 15:04:05".

(** The calls into Go's standard library whose results the parsers only
    pass along, and the clock.
    - [time_Parse layout value]: [time.Parse], [None] for an error;
    - [time_Now]: [time.Now()];
    - [unixTimestamp s]: [strconv.ParseFloat(s, 64)] followed by
      [time.Unix(int64(f), 0).UTC()], [None] when the float does not parse;
    - [url_Hostname s]: [url.Parse(s)] followed by [Hostname()], [None]
      when the URL does not parse. *)
Class GoLib : Type := mkGoLib {
  time_Parse : string -> string -> option Time;
  time_Now : Time;
  unixTimestamp : string -> option Time;
  url_Hostname : string -> option string
}.

(** ** parsers/parser.go *)

(** [type LogEntry struct]. *)
Record LogEntry : Type := mkLogEntry {
  Timestamp : Time;
  SourceIP : string;
  Domain : string;
  URL : string;
  Method : string;
  StatusCode : string;
  BytesSent : Z;
  RawLine : string
}.

(** The zero value [LogEntry{}]. *)
Definition zeroLogEntry : LogEntry := mkLogEntry zeroTime "" "" "" "" "" 0 "".

(** ** analyzer.go: the aggregator *)

(** [type Finding struct]. *)
Record Finding : Type := mkFinding {
  fTimestamp : Time;
  fSourceIP : string;
  fServiceName : string;
  fCategory : string;
  fDomain : string;
  fURL : string;
  fMethod : string;
  fStatusCode : string;
  fBytesSent : Z
}.

(** [type Summary struct]. *)
Record Summary : Type := mkSummary {
  TotalLogsScanned : Z;
  TotalFindings : Z;
  UniqueUsers : Z;
  UniqueServices : Z;
  Findings : list Finding;
  ByUser : gmap string Z;
  ByService : gmap string Z
}.

(** [m[k]++] on a [map[string]int]: a missing key reads as zero. *)
Definition incr (k : string) (m : gmap string Z) : gmap string Z :=
  <[k := wrapInt (default 0 (m !! k) + 1)]> m.

(** The [Finding] literal of [Analyze]. *)
Definition findingOf (entry : LogEntry) (svc : AIService) : Finding :=
  mkFinding (Timestamp entry) (SourceIP entry) (Name svc) (Category svc)
            (Domain entry) (URL entry) (Method entry) (StatusCode entry)
            (BytesSent entry).

(** One iteration of [for _, entry := range entries]. *)
Definition analyzeEntry (a : Analyzer) (summary : Summary) (entry : LogEntry)
  : Summary :=
  let '(svc, found) := matchDomain a (Domain entry) in
  if negb found then summary
  else
    mkSummary (TotalLogsScanned summary) (TotalFindings summary)
              (UniqueUsers summary) (UniqueServices summary)
              (Findings summary ++ [findingOf entry svc])
              (incr (SourceIP entry) (ByUser summary))
              (incr (Name svc) (ByService summary)).

(** [Analyze(entries)] on the receiver [a]. *)
Definition Analyze (a : Analyzer) (entries : list LogEntry) : Summary :=
  let summary := mkSummary (len entries) 0 0 0 [] ∅ ∅ in
  let summary := fold_left (analyzeEntry a) entries summary in
  mkSummary (TotalLogsScanned summary)
            (len (Findings summary))
            (Z.of_nat (size (ByUser summary)))
            (Z.of_nat (size (ByService summary)))
            (Findings summary) (ByUser summary) (ByService summary).

(** ** The log files as the parsers see them *)

(** What [os.Open] and the [bufio.Scanner] loop make of a path: the
    lines [scanner.Text()] yields, and whether [scanner.Err()] is
    non-nil once [scanner.Scan()] has returned false.  [scanFile] below
    computes both from the bytes of the file. *)
Inductive Scanned : Type :=
| CannotOpen : Scanned
| Scan (lines : list string) (scanErr : bool) : Scanned.

(** *** Go's [bufio.Scanner], as [bufio.NewScanner] makes it *)

Module bufio.

(** [bufio.MaxScanTokenSize]: the size up to which the buffer of the
    scanner grows. *)
Definition MaxScanTokenSize : Z := 64 * 1024.



(** Whether a line fills the buffer before its newline is read: the
    scanner then gives up with [ErrTooLong]. *)
Definition tooLong (data : string) : bool :=
  MaxScanTokenSize <=? Z.of_nat (String.length data).



End bufio.



(** What [os.Open] and the [csv.Reader] make of a path: the file cannot
    be opened, the reader stops at a read or syntax error, or the rows
    it reads (before it compares their numbers of fields). *)
Inductive CSVFile : Type :=
| CSVCannotOpen : CSVFile
| CSVBroken : CSVFile
| CSVRows (rows : list (list string)) : CSVFile.

(** [reader.ReadAll()] on those rows.  [CSVParser.Parse] leaves the
    reader's [FieldsPerRecord] at 0, so the reader takes the number of
    fields of the first record and fails on any later record with
    another number of fields. *)
Definition ReadAll (rows : list (list string)) : option (list (list string)) :=
  match rows with
  | [] => Some []
  | first :: rest =>
      if forallb (fun row => Nat.eqb (length row) (length first)) rest
      then Some rows else None
  end.

Inductive ParseError : Type :=
| ErrOpening
| ErrReading
| ErrParsingCSV
| ErrNoDataRows
| ErrMissingDestination.

Inductive LineError : Type :=
| ErrNotEnoughFields
| ErrBadTimestamp
| ErrNotDnsmasq
| ErrMalformedQuery
| ErrUnexpectedFormat.

(** The test that makes the scanning loops [continue] on blank lines
    and comments. *)
Definition blankOrComment (line : string) : bool :=
  String.eqb (strings.TrimSpace line) "" || strings.HasPrefix line "#".

(** [fields[i]], read after the length of [fields] has been checked. *)
Definition at_ (fields : list string) (i : nat) : string := nth i fields "".

Section Parsers.
Context {lib : GoLib}.

(** *** The Squid parser *)

(** [func extractDomain(rawURL string) string]. *)
Definition extractDomain (rawURL : string) : string :=
  if negb (strings.Contains rawURL "://") then
    let host := at_ (strings.SplitN2 rawURL ":") 0 in
    strings.ToLower host
  else
    match url_Hostname rawURL with
    | None => ""
    | Some host => strings.ToLower host
    end.

(** [func parseSquidLine(line string) (LogEntry, error)]. *)
Definition parseSquidLine (line : string) : LogEntry + LineError :=
  let fields := strings.Fields line in
  if len fields <? 8 then inr ErrNotEnoughFields
  else
    match unixTimestamp (at_ fields 0) with
    | None => inr ErrBadTimestamp
    | Some ts =>
        let sourceIP := at_ fields 2 in
        let statusCode :=
          match strings.SplitN2 (at_ fields 3) "/" with
          | [_; code] => code
          | _ => ""
          end in
        let bytesSent := fst (strconv.ParseInt (at_ fields 4)) in
        let method := at_ fields 5 in
        let rawURL := at_ fields 6 in
        let domain := extractDomain rawURL in
        inl (mkLogEntry ts sourceIP domain rawURL method statusCode bytesSent line)
    end.

(** The body of the loop [for scanner.Scan()] of [SquidParser.Parse]. *)
Definition squidStep (entries : list LogEntry) (line : string) : list LogEntry :=
  if blankOrComment line then entries
  else match parseSquidLine line with
       | inr _ => entries
       | inl entry => entries ++ [entry]
       end.

(** [func (p *SquidParser) Parse]. *)
Definition SquidParser_Parse (file : Scanned) : list LogEntry + ParseError :=
  match file with
  | CannotOpen => inr ErrOpening
  | Scan lines scanErr =>
      let entries := fold_left squidStep lines [] in
      if scanErr then inr ErrReading else inl entries
  end.

(** *** The DNS parser *)

(** [func parseSimpleDNS(line string) (LogEntry, error)]. *)
Definition parseSimpleDNS (line : string) : LogEntry + LineError :=
  let fields := strings.Fields line in
  if len fields <? 3 then inr ErrNotEnoughFields
  else
    match time_Parse RFC3339 (at_ fields 0) with
    | None => inr ErrBadTimestamp
    | Some ts =>
        inl (mkLogEntry ts (at_ fields 1)
               (strings.ToLower (strings.TrimSuffix (at_ fields 2) "."))
               "" "" "" 0 line)
    end.

(** The text of a dnsmasq line that is handed to [time.Parse]: what
    precedes the marker, cut before [dnsmasq] and reduced to its first
    three fields when it has four or more. *)
Definition dnsmasqStamp (line : string) (qIdx : Z) : string :=
  let tsPart := strings.TrimSpace (strings.sliceTo (Z.to_nat qIdx) line) in
  let dnsmasqIdx := strings.Index tsPart "dnsmasq" in
  if 0 <? dnsmasqIdx then
    let tsPart := strings.TrimSpace (strings.sliceTo (Z.to_nat dnsmasqIdx) tsPart) in
    let tsFields := strings.Fields tsPart in
    if 4 <=? len tsFields then strings.Join (take 3 tsFields) " " else tsPart
  else tsPart.

(** [func parseDnsmasq(line string) (LogEntry, error)]. *)
Definition parseDnsmasq (line : string) : LogEntry + LineError :=
  let qIdx := strings.Index line "query[" in
  if qIdx =? -1 then inr ErrNotDnsmasq
  else
    let afterQuery := strings.sliceFrom (Z.to_nat qIdx) line in
    let closeBracket := strings.Index afterQuery "] " in
    if closeBracket =? -1 then inr ErrMalformedQuery
    else
      let rest := strings.sliceFrom (Z.to_nat (closeBracket + 2)) afterQuery in
      let parts := strings.Fields rest in
      if (len parts <? 3) || negb (String.eqb (at_ parts 1) "from")
      then inr ErrUnexpectedFormat
      else
        let domain := strings.ToLower (strings.TrimSuffix (at_ parts 0) ".") in
        let sourceIP := at_ parts 2 in
        let tsPart := dnsmasqStamp line qIdx in
        let ts :=
          match time_Parse syslogLayout tsPart with
          | None => zeroTime
          | Some ts => AddDate ts (Year time_Now)
          end in
        inl (mkLogEntry ts sourceIP domain "" "" "" 0 line).

(** One line of a DNS log: the simple format first, then dnsmasq. *)
Definition parseDNSLine (line : string) : LogEntry + LineError :=
  match parseSimpleDNS line with
  | inl entry => inl entry
  | inr _ => parseDnsmasq line
  end.

(** The body of the loop of [DNSParser.Parse]. *)
Definition dnsStep (entries : list LogEntry) (line : string) : list LogEntry :=
  if blankOrComment line then entries
  else match parseDNSLine line with
       | inr _ => entries
       | inl entry => entries ++ [entry]
       end.

(** [func (p *DNSParser) Parse]. *)
Definition DNSParser_Parse (file : Scanned) : list LogEntry + ParseError :=
  match file with
  | CannotOpen => inr ErrOpening
  | Scan lines scanErr =>
      let entries := fold_left dnsStep lines [] in
      if scanErr then inr ErrReading else inl entries
  end.

(** *** The CSV parser *)

(** [func mapColumns(header []string) map[string]int]: a later column
    of the same name overwrites an earlier one. *)
Definition mapColumns (header : list string) : gmap string Z :=
  fst (fold_left
         (fun '(m, i) col =>
            (<[strings.ToLower (strings.TrimSpace col) := i]> m, i + 1))
         header (∅, 0)).

(** [func findCol(colMap map[string]int, names ...string) int]. *)
Fixpoint findCol (colMap : gmap string Z) (names : list string) : Z :=
  match names with
  | [] => -1
  | name :: rest =>
      match colMap !! name with
      | Some idx => idx
      | None => findCol colMap rest
      end
  end.

(** The loop of [parseFlexibleTime] over its formats. *)
Fixpoint firstLayout (formats : list string) (s : string) : Time :=
  match formats with
  | [] => zeroTime
  | f :: rest =>
      match time_Parse f s with
      | Some t => t
      | None => firstLayout rest s
      end
  end.

(** [func parseFlexibleTime(s string) time.Time]. *)
Definition parseFlexibleTime (s : string) : Time :=
  let s := strings.TrimSpace s in
  firstLayout
    [RFC3339; "2006-01-02T15:04:05"; "2006-01-02 15:04:05";
     "01/02/2006 15:04:05"; "02/Jan/2006:15:04:05 -0700";
     "Jan 2 15:04:05 2006"; "2006-01-02"] s.

(** [row[col]] under the guard [col >= 0 && col < len(row)]. *)
Definition cell (row : list string) (col : Z) : option string :=
  if (0 <=? col) && (col <? len row) then Some (at_ row (Z.to_nat col)) else None.

(** The entry that the loop of [CSVParser.Parse] builds from one row. *)
Definition csvEntry (tsCol srcCol dstCol bytesCol actionCol : Z)
    (row : list string) : LogEntry :=
  let timestamp :=
    match cell row tsCol with
    | Some c => parseFlexibleTime c
    | None => zeroTime
    end in
  let sourceIP :=
    match cell row srcCol with
    | Some c => strings.TrimSpace c
    | None => ""
    end in
  let '(domain, url) :=
    match cell row dstCol with
    | Some c =>
        let val := strings.TrimSpace c in
        if strings.Contains val "://" then (extractDomain val, val)
        else (strings.ToLower val, "")
    | None => ("", "")
    end in
  let bytesSent :=
    match cell row bytesCol with
    | Some c => fst (strconv.ParseInt (strings.TrimSpace c))
    | None => 0
    end in
  let statusCode :=
    match cell row actionCol with
    | Some c => strings.TrimSpace c
    | None => ""
    end in
  mkLogEntry timestamp sourceIP domain url "" statusCode bytesSent
             (strings.Join row ",").

(** The body of the loop [for _, row := range records[1:]]. *)
Definition csvStep (tsCol srcCol dstCol bytesCol actionCol : Z)
    (entries : list LogEntry) (row : list string) : list LogEntry :=
  let entry := csvEntry tsCol srcCol dstCol bytesCol actionCol row in
  if negb (String.eqb (Domain entry) "") then entries ++ [entry] else entries.

(** The header names of the destination column. *)
Definition dstNames : list string :=
  ["destination"; "dst"; "domain"; "host"; "url"; "dest"; "dst_host"].

(** [func (p *CSVParser) Parse]. *)
Definition CSVParser_Parse (file : CSVFile) : list LogEntry + ParseError :=
  match file with
  | CSVCannotOpen => inr ErrOpening
  | CSVBroken => inr ErrParsingCSV
  | CSVRows rows =>
      match ReadAll rows with
      | None => inr ErrParsingCSV
      | Some records =>
          if len records <? 2 then inr ErrNoDataRows
          else
            let colMap := mapColumns (hd [] records) in
            let tsCol := findCol colMap ["timestamp"; "time"; "date"; "datetime"] in
            let srcCol :=
              findCol colMap ["source_ip"; "src_ip"; "src"; "client_ip"; "source"] in
            let dstCol := findCol colMap dstNames in
            let bytesCol :=
              findCol colMap ["bytes"; "bytes_sent"; "size"; "content_length"] in
            let actionCol :=
              findCol colMap ["action"; "status"; "status_code"; "result"] in
            if dstCol =? -1 then inr ErrMissingDestination
            else
              inl (fold_left (csvStep tsCol srcCol dstCol bytesCol actionCol)
                             (tl records) [])
      end
  end.

End Parsers.

(** ** analyzer.go: the two counters *)

(** [ServiceCount()] on the receiver [a]: the loop
    [for _, svc := range a.domainMap { seen[svc.Name] = true }] and
    [len(seen)].  The order in which Go ranges over the map does not
    show in the set of names. *)
Definition ServiceCount (a : Analyzer) : Z :=
  let seen : gset string :=
    map_fold (fun _ svc seen => {[Name svc]} ∪ seen) ∅ (domainMap a) in
  Z.of_nat (size seen).

(** [DomainCount()] on the receiver [a]: [len(a.domainMap)]. *)
Definition DomainCount (a : Analyzer) : Z := Z.of_nat (size (domainMap a)).

(** ** main.go: choosing a parser and scanning the files *)

Module filepath.

(** [filepath.Ext] where the path separator is [/]: the suffix of the
    path from the last dot of its last element, or the empty string
    when that element has no dot. *)
Fixpoint Ext (path : string) : string :=
  match path with
  | EmptyString => EmptyString
  | String c r =>
      match Ext r with
      | String _ _ as ext => ext
      | EmptyString =>
          if Ascii.eqb c "." && negb (strings.Contains r "/") then path
          else EmptyString
      end
  end.

(** The path without its trailing separators. *)
Fixpoint stripSlashes (path : string) : string :=
  match path with
  | EmptyString => EmptyString
  | String c r =>
      let r' := stripSlashes r in
      if Ascii.eqb c "/" && String.eqb r' EmptyString then EmptyString
      else String c r'
  end.

(** [filepath.Base] where the path separator is [/]: the last element
    of the path once trailing separators are removed; [.] for the empty
    path and [/] for a path of separators only. *)
Definition Base (path : string) : string :=
  if String.eqb path EmptyString then "."
  else
    let path := stripSlashes path in
    let path := List.last (strings.Split path "/") EmptyString in
    if String.eqb path EmptyString then "/" else path.

End filepath.

(** The three implementations of [parsers.Parser]. *)
Inductive ParserKind : Type := SquidKind | DNSKind | CSVKind.

(** [Name()] of each parser. *)
Definition ParserName (p : ParserKind) : string :=
  match p with
  | SquidKind => "squid"
  | DNSKind => "dns"
  | CSVKind => "csv"
  end.

(** [func autoDetect(path string) parsers.Parser]. *)
Definition autoDetect (path : string) : ParserKind :=
  let lower := strings.ToLower path in
  let ext := strings.ToLower (filepath.Ext path) in
  let base := strings.ToLower (filepath.Base path) in
  if String.eqb ext ".csv" then CSVKind
  else if strings.Contains base "dns" || strings.Contains base "query"
          || strings.Contains base "dnsmasq" then DNSKind
  else if strings.Contains base "squid" || strings.Contains base "proxy"
          || strings.Contains lower "access.log" then SquidKind
  else SquidKind.

(** [func selectParser(format, filepath string) parsers.Parser]. *)
Definition selectParser (format path : string) : ParserKind :=
  let f := strings.ToLower format in
  if String.eqb f "squid" then SquidKind
  else if String.eqb f "dns" then DNSKind
  else if String.eqb f "csv" then CSVKind
  else if String.eqb f "auto" then autoDetect path
  else autoDetect path.

(** What the files on disk are to the parsers: for each path, what the
    line scanner and what the CSV reader make of it. *)
Record Disk : Type := mkDisk {
  scanOf : string -> Scanned;
  csvOf : string -> CSVFile
}.

Section Scanning.
Context {lib : GoLib}.

(** [p.Parse(f)] for the parser chosen for [f]. *)
Definition parseFile (disk : Disk) (format f : string) : list LogEntry + ParseError :=
  match selectParser format f with
  | SquidKind => SquidParser_Parse (scanOf disk f)
  | DNSKind => DNSParser_Parse (scanOf disk f)
  | CSVKind => CSVParser_Parse (csvOf disk f)
  end.

(** The loop of [main] over the files: a file whose parse fails is
    reported and skipped, the entries of the others are appended. *)
Definition parseAll (disk : Disk) (format : string) (files : list string)
  : list LogEntry :=
  fold_left
    (fun allEntries f =>
       match parseFile disk format f with
       | inr _ => allEntries
       | inl entries => (allEntries ++ entries)%list
       end)
    files [].

(** The scan of [main]: parse all files, then [az.Analyze(allEntries)]. *)
Definition scan (a : Analyzer) (disk : Disk) (format : string) (files : list string)
  : Summary :=
  Analyze a (parseAll disk format files).

End Scanning.

(** ** Go's [fmt.Sprintf("%d", n)] *)

Module fmt.

(** The byte of the decimal digit [d]. *)
Definition digitByte (d : Z) : ascii := ascii_of_nat (Z.to_nat (48 + d)).

(** The digit loop of the integer formatter in base 10: the digits of
    [u] are put in front of the buffer from the last one to the first.
    Twenty rounds are enough for an unsigned 64-bit integer. *)
Fixpoint fmtDigits (rounds : nat) (u : Z) (buf : string) : string :=
  match rounds with
  | O => buf
  | S rounds' =>
      if u <? 10 then String (digitByte u) buf
      else fmtDigits rounds' (u / 10) (String (digitByte (u mod 10)) buf)
  end.

(** [fmt.Sprintf("%d", n)] for an [int64]. *)
Definition Sprintf_d (n : Z) : string :=
  let digits := fmtDigits 20 (Z.abs n) EmptyString in
  if n <? 0 then String "-" digits else digits.

End fmt.

(** ** Go's [encoding/csv]: records written and read back *)

Module csv.

(** What [csv.Reader] makes of a field that [csv.Writer] wrote.  The
    writer puts quotes around a field that holds a quote, a comma, a
    carriage return or a newline, or that starts with white space, and
    doubles the quotes inside; the reader undoes that, but it takes
    every line of the file with a carriage return and newline at its end
    turned into a newline, also inside a quoted field. *)
Fixpoint readBack (field : string) : string :=
  match field with
  | EmptyString => EmptyString
  | String c r =>
      match r with
      | EmptyString => String c EmptyString
      | String c' r' =>
          if Ascii.eqb c "013" && Ascii.eqb c' "010" then String "010" (readBack r')
          else String c (readBack r)
      end
  end.

(** A record that the writer writes as an empty line, which the reader
    skips: no field, or one empty field. *)
Definition emptyLine (record : list string) : bool :=
  match record with
  | [] => true
  | [field] => String.eqb field EmptyString
  | _ => false
  end.

(** The file that holds the records written by a writer that did not
    fail, as [os.Open] and the reader of [CSVParser.Parse] deliver
    it. *)
Definition fileOf (written : list (list string)) : CSVFile :=
  CSVRows (map (map readBack) (List.filter (fun record => negb (emptyLine record)) written)).

End csv.

(** ** reporter/reporter.go *)

(** The methods of [time.Time] that the reporter calls:
    - [time_IsZero t]: [t.IsZero()];
    - [time_Format layout t]: [t.Format(layout)]. *)
Class GoTime : Type := mkGoTime {
  time_IsZero : Time -> bool;
  time_Format : string -> Time -> string
}.

Section Reporter.
Context {tm : GoTime}.

(** The state of a [csv.Writer] and its [Write]: the state after the
    record is written, or [None] for an error. *)
Context {Writer : Type} (Write : Writer -> list string -> option Writer).

(** The [header] of [reportCSV]. *)
Definition csvHeader : list string :=
  ["timestamp"; "source_ip"; "service_name"; "category"; "domain"; "url";
   "method"; "status_code"; "bytes_sent"].

(** The [row] that [reportCSV] builds from one finding. *)
Definition csvRow (f : Finding) : list string :=
  let ts :=
    if negb (time_IsZero (fTimestamp f))
    then time_Format "2006-01-02T15:04:05Z" (fTimestamp f)
    else "" in
  [ts; fSourceIP f; fServiceName f; fCategory f; fDomain f; fURL f; fMethod f;
   fStatusCode f; fmt.Sprintf_d (fBytesSent f)].

(** The loop [for _, f := range s.Findings] of [reportCSV]. *)
Fixpoint writeRows (cw : Writer) (findings : list Finding) : option Writer :=
  match findings with
  | [] => Some cw
  | f :: rest =>
      match Write cw (csvRow f) with
      | None => None
      | Some cw' => writeRows cw' rest
      end
  end.

(** [func reportCSV(s analyzer.Summary, w io.Writer) error] on the
    writer [cw] it makes of [w]: [None] when a write fails. *)
Definition reportCSV (s : Summary) (cw : Writer) : option Writer :=
  match Write cw csvHeader with
  | None => None
  | Some cw' => writeRows cw' (Findings s)
  end.

End Reporter.

(** ** Sample data *)

(** The standard library on the strings of the examples below: the Unix
    time 1718000000 is 2024-06-10 06:13:20 UTC, the two syslog stamps
    parse to their month, day and clock in year 0, no other string is
    accepted, and the clock stands in 2026. *)
Definition sampleLib : GoLib :=
  mkGoLib
    (fun layout value =>
       if String.eqb layout syslogLayout then
         if String.eqb value "Jun 10 08:30:00" then Some (mkTime 0 6 10 8 30 0 0)
         else if String.eqb value "Feb 29 08:30:00" then Some (mkTime 0 2 29 8 30 0 0)
         else None
       else if String.eqb layout RFC3339 then
         if String.eqb value "2025-06-10T08:30:00Z" then Some (mkTime 2025 6 10 8 30 0 0)
         else None
       else if String.eqb layout "2006-01-02" then
         if String.eqb value "2025-06-10" then Some (mkTime 2025 6 10 0 0 0 0)
         else None
       else None)
    (mkTime 2026 10 30 12 0 0 0)
    (fun s =>
       if String.eqb s "1718000000.000" then Some (mkTime 2024 6 10 6 13 20 0)
       else None)
    (fun s =>
       if String.eqb s "https://api.openai.com/v1/chat/completions"
       then Some "api.openai.com" else None).

Definition openai : AIService :=
  mkAIService "OpenAI" "LLM" ["openai.com"; "api.openai.com"].

(** The methods of [time.Time] on the times of the examples: only the
    zero value is zero, and 2025-06-10 08:30:00 UTC is formatted. *)
Definition sampleTime : GoTime :=
  mkGoTime
    (fun t =>
       (Year t =? 1) && (Month t =? 1) && (Day t =? 1) && (Hour t =? 0)
       && (Minute t =? 0) && (Second t =? 0) && (Nanosecond t =? 0))
    (fun layout t =>
       if String.eqb layout "2006-01-02T15:04:05Z"
          && (Year t =? 2025) && (Month t =? 6) && (Day t =? 10) && (Hour t =? 8)
          && (Minute t =? 30) && (Second t =? 0)
       then "2025-06-10T08:30:00Z" else "").



(** ** Definitions for the statements *)

(** The candidate suffixes of the matcher, in the words of the
    specification: the domain with its first [i] labels dropped, for
    every label index [i] from 1 through the second-to-last label. *)
Definition suffixCandidates (domain : string) : list string :=
  let parts := strings.Split domain "." in
  map (fun i => strings.Join (drop i parts) ".") (seq 1 (length parts - 2)).

(** The first candidate that the index knows. *)
Fixpoint firstHit (m : gmap string AIService) (candidates : list string)
  : option AIService :=
  match candidates with
  | [] => None
  | c :: rest =>
      match m !! c with
      | Some svc => Some svc
      | None => firstHit m rest
      end
  end.

(** [Match] as the specification words it: lower-case, exact lookup,
    then the candidate suffixes in order, else not found. *)
Definition Match_spec (a : Analyzer) (domain : string) : AIService * bool :=
  let d := strings.ToLower domain in
  match domainMap a !! d with
  | Some svc => (svc, true)
  | None =>
      match firstHit (domainMap a) (suffixCandidates d) with
      | Some svc => (svc, true)
      | None => (zeroAIService, false)
      end
  end.

(** Whether a service lists a domain that lower-cases to [key]. *)
Definition lists (svc : AIService) (key : string) : bool :=
  bool_decide (key ∈ map strings.ToLower (Domains svc)).

(** The last service of a file that lists [key]: the owner of [key]
    once the file has been inserted. *)
Fixpoint ownerOf (svcs : list AIService) (key : string) : option AIService :=
  match svcs with
  | [] => None
  | svc :: rest =>
      match ownerOf rest key with
      | Some o => Some o
      | None => if lists svc key then Some svc else None
      end
  end.

(** The analyzers the program can build: [New], then any number of
    [LoadCustomDomains]. *)
Inductive Built : Analyzer -> Prop :=
| Built_New file a : New file = inl a -> Built a
| Built_Load file a : Built a -> Built (fst (LoadCustomDomains file a)).

(** Whether the catalogue matches an entry, and the finding it makes. *)
Definition matched (a : Analyzer) (entry : LogEntry) : bool :=
  snd (matchDomain a (Domain entry)).

Definition matchedFinding (a : Analyzer) (entry : LogEntry) : Finding :=
  findingOf entry (fst (matchDomain a (Domain entry))).

(** The number of distinct strings of a list. *)
Definition distinct (l : list string) : nat := size (list_to_set l : gset string).

(** The sum of the counts of a counter mapping. *)
Definition sumCounts (m : gmap string Z) : Z :=
  map_fold (fun _ v acc => v + acc) 0 m.

(** Counting the keys of a list into a counter mapping, left to right. *)
Definition tally (m : gmap string Z) (keys : list string) : gmap string Z :=
  fold_left (fun m k => incr k m) keys m.

(** How often [k] occurs in [keys]. *)
Fixpoint occurrences (k : string) (keys : list string) : Z :=
  match keys with
  | [] => 0
  | x :: rest => (if String.eqb k x then 1 else 0) + occurrences k rest
  end.

(** The entries of the lines of a log that are neither blank nor
    comments and that [parse] accepts, in order. *)
Definition parsedLines (parse : string -> LogEntry + LineError)
    (lines : list string) : list LogEntry :=
  flat_map (fun line =>
              if blankOrComment line then []
              else match parse line with
                   | inl entry => [entry]
                   | inr _ => []
                   end) lines.

(** The entries of the data rows of a CSV file whose domain is not
    empty, in order. *)
Definition csvRows {lib : GoLib} (tsCol srcCol dstCol bytesCol actionCol : Z)
    (rows : list (list string)) : list LogEntry :=
  flat_map (fun row =>
              let entry := csvEntry tsCol srcCol dstCol bytesCol actionCol row in
              if String.eqb (Domain entry) "" then [] else [entry]) rows.

(** The column of the destination in a header, or [-1]. *)
Definition destinationColumn (header : list string) : Z :=
  findCol (mapColumns header) dstNames.

(** The columns of the other fields in a header, or [-1]. *)
Definition timestampColumn (header : list string) : Z :=
  findCol (mapColumns header) ["timestamp"; "time"; "date"; "datetime"].
Definition sourceColumn (header : list string) : Z :=
  findCol (mapColumns header) ["source_ip"; "src_ip"; "src"; "client_ip"; "source"].
Definition bytesColumn (header : list string) : Z :=
  findCol (mapColumns header) ["bytes"; "bytes_sent"; "size"; "content_length"].
Definition actionColumn (header : list string) : Z :=
  findCol (mapColumns header) ["action"; "status"; "status_code"; "result"].

(** The entries [CSVParser.Parse] returns for a header and data rows. *)
Definition csvEntries {lib : GoLib} (header : list string)
    (rows : list (list string)) : list LogEntry :=
  csvRows (timestampColumn header) (sourceColumn header) (destinationColumn header)
          (bytesColumn header) (actionColumn header) rows.


(** That a call has returned an error. *)
Definition failed {A : Type} (r : A + ParseError) : Prop :=
  match r with inl _ => False | inr _ => True end.

(** The lower-cased domains of all the services of a file. *)
Definition listedKeys (svcs : list AIService) : list string :=
  flat_map (fun svc => map strings.ToLower (Domains svc)) svcs.

(** Whether a string holds a white-space byte. *)
Fixpoint hasSpace (s : string) : bool :=
  match s with
  | EmptyString => false
  | String c r => strings.isSpace c || hasSpace r
  end.

(** A header cell as [mapColumns] keys it: trimmed and lower-cased. *)
Definition headerKey (col : string) : string :=
  strings.ToLower (strings.TrimSpace col).

(** Whether a string is empty or starts with a byte that is not white
    space. *)
Definition startsClean (s : string) : bool :=
  match s with
  | EmptyString => true
  | String c _ => negb (strings.isSpace c)
  end.

(** The last position of [name] in a list of keys. *)
Fixpoint lastIndex (name : string) (keys : list string) : option nat :=
  match keys with
  | [] => None
  | k :: rest =>
      match lastIndex name rest with
      | Some n => Some (S n)
      | None => if String.eqb k name then Some O else None
      end
  end.

(** The entries a file contributes to a scan: those of its parse, or
    none when the parse fails. *)
Definition entriesOf {lib : GoLib} (disk : Disk) (format f : string) : list LogEntry :=
  match parseFile disk format f with
  | inl entries => entries
  | inr _ => []
  end.

(** The sum of a list of integers. *)
Definition sumZ (l : list Z) : Z := foldr Z.add 0 l.

(** A [csv.Writer] that never fails, by the records written to it. *)
Definition record (written : list (list string)) (row : list string)
  : option (list (list string)) :=
  Some (written ++ [row])%list.

(** A finding that can be read back: no white space around the source
    address, the domain and the status code and no carriage return
    before a newline inside them, a domain in lower case that is not
    empty and holds no [://], and a byte count that fits an [int64]. *)
Definition rereadable (f : Finding) : bool :=
  String.eqb (strings.TrimSpace (fSourceIP f)) (fSourceIP f)
  && String.eqb (csv.readBack (fSourceIP f)) (fSourceIP f)
  && String.eqb (strings.TrimSpace (fDomain f)) (fDomain f)
  && String.eqb (csv.readBack (fDomain f)) (fDomain f)
  && String.eqb (strings.ToLower (fDomain f)) (fDomain f)
  && negb (strings.Contains (fDomain f) "://")
  && negb (String.eqb (fDomain f) "")
  && String.eqb (strings.TrimSpace (fStatusCode f)) (fStatusCode f)
  && String.eqb (csv.readBack (fStatusCode f)) (fStatusCode f)
  && (- 2 ^ 63 <=? fBytesSent f) && (fBytesSent f <=? 2 ^ 63 - 1).

(** That a log entry carries the hit of a finding: its source address,
    domain, status code and byte count, and neither URL nor method. *)
Definition sameHit (f : Finding) (entry : LogEntry) : Prop :=
  SourceIP entry = fSourceIP f
  /\ Domain entry = fDomain f
  /\ StatusCode entry = fStatusCode f
  /\ BytesSent entry = fBytesSent f
  /\ URL entry = ""
  /\ Method entry = "".

(** The entry that the CSV parser builds from the row of a finding in
    the report, when the finding is as [rereadable] asks. *)
Definition rereadEntry {lib : GoLib} {tm : GoTime} (f : Finding) : LogEntry :=
  mkLogEntry (parseFlexibleTime (csv.readBack (at_ (csvRow f) 0))) (fSourceIP f)
             (fDomain f) "" "" (fStatusCode f) (fBytesSent f)
             (strings.Join (map csv.readBack (csvRow f)) ",").

(** That two findings report the same hit: source address, service,
    category, domain, status code and byte count. *)
Definition sameFinding (f f' : Finding) : Prop :=
  fSourceIP f' = fSourceIP f
  /\ fServiceName f' = fServiceName f
  /\ fCategory f' = fCategory f
  /\ fDomain f' = fDomain f
  /\ fStatusCode f' = fStatusCode f
  /\ fBytesSent f' = fBytesSent f.

(** The sign and the body of a numeral, as [ParseInt] takes them
    apart. *)
Definition signOf (text : string) : bool * string :=
  match text with
  | String "+" r => (false, r)
  | String "-" r => (true, r)
  | _ => (false, text)
  end.

(** The longest prefix of a text that consists of decimal digits. *)
Fixpoint leadingDigits (s : string) : string :=
  match s with
  | EmptyString => EmptyString
  | String c r => if strconv.isDigit c then String c (leadingDigits r) else EmptyString
  end.

(** The number that the digits [ds] write after the number [acc]. *)
Fixpoint decimal (acc : Z) (ds : string) : Z :=
  match ds with
  | EmptyString => acc
  | String c r => decimal (acc * 10 + (Z.of_nat (nat_of_ascii c) - 48)) r
  end.

(** The nearest [int64]. *)
Definition clamp64 (v : Z) : Z := Z.max (- 2 ^ 63) (Z.min v (2 ^ 63 - 1)).

(** The byte count that a text stands for: the number of a signed
    decimal numeral, brought into the range of [int64]; the nearest bound
    too when the text only starts with a numeral, one that does not fit
    64 bits; 0 for any other text. *)
Definition byteCount (text : string) : Z :=
  let '(neg, body) := signOf text in
  let v := decimal 0 (leadingDigits body) in
  if String.eqb body "" then 0
  else if String.eqb (leadingDigits body) body || (strconv.maxVal <? v)
       then clamp64 (if neg then - v else v)
       else 0.

(** * Properties *)

Example parse_examples :
  @parseSquidLine sampleLib "1718000000.000 200 192.168.1.50 TCP_MISS/200 1500 GET https://api.openai.com/v1/chat/completions - DIRECT/api.openai.com text/html"
  = inl (mkLogEntry (mkTime 2024 6 10 6 13 20 0) "192.168.1.50" "api.openai.com"
           "https://api.openai.com/v1/chat/completions" "GET" "200" 1500
           "1718000000.000 200 192.168.1.50 TCP_MISS/200 1500 GET https://api.openai.com/v1/chat/completions - DIRECT/api.openai.com text/html")
  /\ @parseDNSLine sampleLib "2025-06-10T08:30:00Z 192.168.1.50 api.openai.com A"
  = inl (mkLogEntry (mkTime 2025 6 10 8 30 0 0) "192.168.1.50" "api.openai.com" "" "" "" 0
          "2025-06-10T08:30:00Z 192.168.1.50 api.openai.com A")
  /\ @parseDNSLine sampleLib "Jun 10 08:30:00 myhost dnsmasq[1234]: query[A] API.openai.com. from 192.168.1.50"
  = inl (mkLogEntry (mkTime 2026 6 10 8 30 0 0) "192.168.1.50" "api.openai.com" "" "" "" 0
          "Jun 10 08:30:00 myhost dnsmasq[1234]: query[A] API.openai.com. from 192.168.1.50")
  /\ @CSVParser_Parse sampleLib (CSVRows [["timestamp";"src_ip";"domain";"bytes";"status"];
        ["2025-06-10";"192.168.1.50";"api.openai.com";"1500";"200"]])
  = inl [mkLogEntry (mkTime 2025 6 10 0 0 0 0) "192.168.1.50" "api.openai.com" "" "" "200" 1500
          "2025-06-10,192.168.1.50,api.openai.com,1500,200"].
Proof. vm_compute. repeat split. Qed.

(** ** Strings *)

Section StringFacts.
Import strings.

Lemma app_String c (r t : string) : String c r +:+ t = String c (r +:+ t).
Proof. reflexivity. Qed.

Lemma app_Empty (t : string) : EmptyString +:+ t = t.
Proof. reflexivity. Qed.

Lemma lowerByte_idem c : lowerByte (lowerByte c) = lowerByte c.
Proof. destruct c as [[] [] [] [] [] [] [] []]; reflexivity. Qed.

Lemma ToLower_idem s : ToLower (ToLower s) = ToLower s.
Proof. induction s as [|c r IH]; simpl; [done|]. by rewrite lowerByte_idem, IH. Qed.


Lemma Split_nonempty s sep : Split s sep <> [].
Proof.
  destruct s as [|c r]; simpl; [done|].
  destruct (Ascii.eqb c sep); [done|]. by destruct (Split r sep).
Qed.


(** Splitting commutes with gluing two strings by the separator. *)
Lemma Split_glue p s sep :
  Split (p +:+ String sep s) sep = (Split p sep ++ Split s sep)%list.
Proof.
  induction p as [|c r IH].
  - rewrite app_Empty. simpl. by rewrite Ascii.eqb_refl.
  - rewrite app_String. simpl. destruct (Ascii.eqb c sep); rewrite IH; [done|].
    pose proof (Split_nonempty r sep). by destruct (Split r sep).
Qed.

Lemma Join_cons e rest sep :
  rest <> [] -> Join (e :: rest) sep = e +:+ sep +:+ Join rest sep.
Proof. by destruct rest. Qed.

Lemma string_app_assoc (s t u : string) : (s +:+ t) +:+ u = s +:+ (t +:+ u).
Proof. induction s as [|c r IH]; [done|]. rewrite !app_String. by f_equal. Qed.

Lemma Join_app l1 l2 sep :
  l1 <> [] -> l2 <> [] ->
  Join (l1 ++ l2)%list sep = Join l1 sep +:+ sep +:+ Join l2 sep.
Proof.
  intros H1 H2. induction l1 as [|e l1 IH]; [done|].
  destruct l1 as [|e' l1].
  - simpl app. by rewrite Join_cons.
  - change ((e :: e' :: l1) ++ l2)%list with (e :: ((e' :: l1) ++ l2))%list.
    rewrite Join_cons by done. rewrite IH by done.
    rewrite (Join_cons e (e' :: l1)) by done.
    by rewrite !string_app_assoc.
Qed.

(** Joining the pieces of a split gives the string back. *)
Lemma Join_Split s sep : Join (Split s sep) (String sep EmptyString) = s.
Proof.
  induction s as [|c r IH]; simpl; [done|].
  destruct (Ascii.eqb_spec c sep) as [->|Hne].
  - rewrite Join_cons by apply Split_nonempty. rewrite app_Empty, app_String, app_Empty.
    by rewrite IH.
  - pose proof (Split_nonempty r sep) as Hn.
    destruct (Split r sep) as [|p ps]; [done|].
    destruct ps as [|q ps]; [simpl in *; by subst|].
    rewrite Join_cons in IH by done. rewrite Join_cons by done.
    rewrite app_String. by rewrite IH.
Qed.

(** A piece of a split holds no separator. *)
Lemma Split_pieces s sep :
  Forall (fun p => Split p sep = [p]) (Split s sep).
Proof.
  induction s as [|c r IH]; simpl.
  - by constructor.
  - destruct (Ascii.eqb_spec c sep) as [->|Hne].
    + by constructor.
    + pose proof (Split_nonempty r sep) as Hn.
      destruct (Split r sep) as [|p ps]; [done|].
      inversion IH as [|? ? Hp Hps]; subst. constructor; [|done].
      simpl. apply Ascii.eqb_neq in Hne. by rewrite Hne, Hp.
Qed.

(** Splitting the join of pieces gives the pieces back. *)
Lemma Split_Join l sep :
  l <> [] -> Forall (fun p => Split p sep = [p]) l ->
  Split (Join l (String sep EmptyString)) sep = l.
Proof.
  intros Hl Hall. induction Hall as [|e l He Hall IH]; [done|].
  destruct l as [|e' l]; [done|].
  rewrite Join_cons by done. rewrite app_String, app_Empty.
  rewrite Split_glue, IH by done. by rewrite He.
Qed.

End StringFacts.

(** ** The catalogue *)

Section Catalogue.
Import strings.

Lemma insertDomains_fold svc ds (m : gmap string AIService) key :
  fold_left (fun m domain => <[ToLower domain := svc]> m) ds m !! key
  = if bool_decide (key ∈ map ToLower ds) then Some svc else m !! key.
Proof.
  revert m. induction ds as [|d ds IH]; intros m; simpl; [done|].
  rewrite IH. destruct (decide (key = ToLower d)) as [->|Hne].
  - rewrite lookup_insert_eq.
    rewrite (bool_decide_eq_true_2 (_ ∈ _ :: _)) by (apply elem_of_cons; by left).
    by destruct (bool_decide (ToLower d ∈ map ToLower ds)).
  - rewrite lookup_insert_ne by done.
    rewrite (bool_decide_ext (key ∈ ToLower d :: map ToLower ds) (key ∈ map ToLower ds));
      [done|].
    rewrite elem_of_cons. split; [by intros [?|?]|by right].
Qed.

Lemma insertDomains_lookup svc (m : gmap string AIService) key :
  insertDomains svc m !! key = if lists svc key then Some svc else m !! key.
Proof. apply insertDomains_fold. Qed.

(** The index after a file has been inserted: the last service of the
    file that lists the key owns it; a key the file does not list keeps
    its former owner. *)
Lemma insertServices_lookup svcs (m : gmap string AIService) key :
  insertServices svcs m !! key
  = match ownerOf svcs key with Some o => Some o | None => m !! key end.
Proof.
  revert m. induction svcs as [|svc svcs IH]; intros m; [done|].
  unfold insertServices in *. simpl. rewrite IH.
  destruct (ownerOf svcs key); [done|]. rewrite insertDomains_lookup.
  by destruct (lists svc key).
Qed.

Lemma ownerOf_Some svcs key o :
  ownerOf svcs key = Some o -> o ∈ svcs /\ lists o key = true.
Proof.
  induction svcs as [|svc svcs IH]; simpl; [done|].
  destruct (ownerOf svcs key) as [o'|].
  - intros [= <-]. destruct IH as [? ?]; [done|]. split; [by right|done].
  - destruct (lists svc key) eqn:E; [|done]. intros [= <-]. split; [by left|done].
Qed.

Lemma ownerOf_listed svcs svc d :
  svc ∈ svcs -> d ∈ Domains svc -> is_Some (ownerOf svcs (ToLower d)).
Proof.
  intros Hs Hd. induction svcs as [|s svcs IH]; [by apply elem_of_nil in Hs|].
  simpl. destruct (ownerOf svcs (ToLower d)) eqn:E; [done|].
  apply elem_of_cons in Hs as [->|Hs]; [|by destruct IH].
  unfold lists. rewrite bool_decide_eq_true_2; [done|].
  apply list_elem_of_In, in_map, list_elem_of_In, Hd.
Qed.

(** The last service that lists a key is its owner. *)
Lemma ownerOf_last l1 svc l2 key :
  lists svc key = true -> Forall (fun s => lists s key = false) l2 ->
  ownerOf (l1 ++ svc :: l2) key = Some svc.
Proof.
  intros Hsvc Hl2. induction l1 as [|s l1 IH]; simpl.
  - replace (ownerOf l2 key) with (@None AIService); [by rewrite Hsvc|].
    induction Hl2 as [|s l2 Hs Hl2 IH]; simpl; [done|]. by rewrite <- IH, Hs.
  - by rewrite IH.
Qed.

(** Every key of an index the program builds is lower-case. *)
Lemma insertServices_keys_lower svcs (m : gmap string AIService) :
  (forall k, is_Some (m !! k) -> ToLower k = k) ->
  forall k, is_Some (insertServices svcs m !! k) -> ToLower k = k.
Proof.
  intros Hm k. rewrite insertServices_lookup.
  destruct (ownerOf svcs k) as [o|] eqn:E; [|apply Hm].
  intros _. apply ownerOf_Some in E as [_ E]. unfold lists in E.
  apply bool_decide_eq_true_1, list_elem_of_In, in_map_iff in E as (d & <- & _).
  apply ToLower_idem.
Qed.

Lemma Built_keys_lower a :
  Built a -> forall k, is_Some (domainMap a !! k) -> ToLower k = k.
Proof.
  induction 1 as [file a Hnew|file a Hb IH].
  - destruct file as [| |sf]; simpl in Hnew; try discriminate.
    injection Hnew as <-. simpl. apply insertServices_keys_lower.
    intros k [? Hk]. by rewrite lookup_empty in Hk.
  - destruct file as [| |sf]; simpl; try done.
    by apply insertServices_keys_lower.
Qed.

(** C4. Merging a custom catalogue inserts every domain of the new file
    into the index under its lower-cased key and overwrites whatever
    owned the key before, without any check: afterwards [matchDomain] on
    a domain that the custom file lists returns the custom service (the
    last one of the custom file that lists it), whether or not the base
    catalogue owned the key. *)
Theorem LoadCustomDomains_overrides (a : Analyzer) (custom : servicesFile)
    (l1 l2 : list AIService) (svc : AIService) (d : string) :
  Services custom = (l1 ++ svc :: l2)%list ->
  d ∈ Domains svc ->
  Forall (fun s => lists s (ToLower d) = false) l2 ->
  snd (LoadCustomDomains (Content custom) a) = None
  /\ domainMap (fst (LoadCustomDomains (Content custom) a)) !! ToLower d = Some svc
  /\ matchDomain (fst (LoadCustomDomains (Content custom) a)) d = (svc, true)
  /\ matchDomain (fst (LoadCustomDomains (Content custom) a)) (ToLower d) = (svc, true)
  /\ (forall s x, s ∈ Services custom -> x ∈ Domains s ->
        is_Some (domainMap (fst (LoadCustomDomains (Content custom) a)) !! ToLower x))
  /\ (forall key,
        domainMap (fst (LoadCustomDomains (Content custom) a)) !! key
        = match ownerOf (Services custom) key with
          | Some o => Some o
          | None => domainMap a !! key
          end).
Proof.
  intros Hfile Hd Hlast. simpl.
  assert (Hsvc : lists svc (ToLower d) = true).
  { unfold lists. apply bool_decide_eq_true_2, list_elem_of_In, in_map.
    by apply list_elem_of_In. }
  assert (Hkey : insertServices (Services custom) (domainMap a) !! ToLower d = Some svc).
  { rewrite insertServices_lookup, Hfile. by rewrite ownerOf_last. }
  split; [done|]. split; [done|]. split; [|split; [|split]].
  - unfold matchDomain. simpl. by rewrite Hkey.
  - unfold matchDomain. simpl. by rewrite ToLower_idem, Hkey.
  - intros s x Hs Hx. rewrite insertServices_lookup.
    destruct (ownerOf_listed _ _ _ Hs Hx) as [o ->]. by eexists.
  - intros key. apply insertServices_lookup.
Qed.

(** The hypotheses of [LoadCustomDomains_overrides] hold of a custom
    file that claims a domain of the base catalogue. *)
Lemma LoadCustomDomains_overrides_witness :
  let a := mkAnalyzer (insertServices [openai] ∅) in
  let corp := mkAIService "Corp GPT" "Internal" ["API.OpenAI.com"] in
  let custom := mkServicesFile [corp] in
  matchDomain a "api.openai.com" = (openai, true)
  /\ snd (LoadCustomDomains (Content custom) a) = None
  /\ domainMap (fst (LoadCustomDomains (Content custom) a)) !! ToLower "API.OpenAI.com"
     = Some corp
  /\ matchDomain (fst (LoadCustomDomains (Content custom) a)) "API.OpenAI.com" = (corp, true)
  /\ matchDomain (fst (LoadCustomDomains (Content custom) a)) (ToLower "API.OpenAI.com")
     = (corp, true)
  /\ (forall s x, s ∈ Services custom -> x ∈ Domains s ->
        is_Some (domainMap (fst (LoadCustomDomains (Content custom) a)) !! ToLower x))
  /\ (forall key,
        domainMap (fst (LoadCustomDomains (Content custom) a)) !! key
        = match ownerOf (Services custom) key with
          | Some o => Some o
          | None => domainMap a !! key
          end).
Proof.
  intros a corp custom. split; [vm_compute; reflexivity|].
  apply (LoadCustomDomains_overrides a custom [] [] corp "API.OpenAI.com").
  - reflexivity.
  - by left.
  - constructor.
Defined.

End Catalogue.

(** ** The matcher *)

Section Matcher.
Import strings.

Lemma matchParents_firstHit m parts i n :
  matchParents m parts i n
  = firstHit m (map (fun j => Join (drop j parts) ".") (seq i n)).
Proof.
  revert i. induction n as [|n IH]; intros i; simpl; [done|].
  destruct (m !! Join (drop i parts) "."); [done|]. apply IH.
Qed.

Lemma matchDomain_Match_spec a domain : matchDomain a domain = Match_spec a domain.
Proof.
  unfold matchDomain, Match_spec, suffixCandidates.
  destruct (domainMap a !! ToLower domain); [done|].
  by rewrite matchParents_firstHit.
Qed.

Lemma firstHit_None m cands :
  firstHit m cands = None <-> Forall (fun c => m !! c = None) cands.
Proof.
  induction cands as [|c cands IH]; simpl.
  - split; [by constructor|done].
  - destruct (m !! c) eqn:E.
    + split; [done|]. intros H. inversion H; congruence.
    + rewrite IH. split; [by constructor|]. intros H. by inversion H.
Qed.

(** A domain is the labels before index [i], a dot, and the suffix from
    index [i], for every index strictly inside its labels. *)
Lemma suffix_at_label d i :
  (0 < i < length (Split d "."))%nat ->
  d = Join (take i (Split d ".")) "." +:+ "." +:+ Join (drop i (Split d ".")) "."
  /\ Split (Join (drop i (Split d ".")) ".") "." = drop i (Split d ".").
Proof.
  intros Hi. split.
  - rewrite <- Join_app.
    + by rewrite take_drop, Join_Split.
    + intros E. apply (f_equal length) in E. rewrite length_take in E. simpl in E. lia.
    + intros E. apply (f_equal length) in E. rewrite length_drop in E. simpl in E. lia.
  - apply Split_Join.
    + intros E. apply (f_equal length) in E. rewrite length_drop in E. simpl in E. lia.
    + apply Forall_drop, Split_pieces.
Qed.

(** What the loop tries: each candidate is the lower-cased domain with
    some leading labels dropped, it keeps two labels or more, and it is
    neither the whole domain nor its final label. *)
Lemma suffixCandidates_proper d :
  Forall (fun c =>
            (exists p, d = p +:+ "." +:+ c)
            /\ (2 <= length (Split c "."))%nat
            /\ (length (Split c ".") < length (Split d "."))%nat
            /\ c <> d
            /\ c <> List.last (Split d ".") "")
         (suffixCandidates d).
Proof.
  unfold suffixCandidates. apply Forall_map, Forall_forall. intros i Hi.
  apply list_elem_of_In, in_seq in Hi.
  destruct (suffix_at_label d i) as [Hd Hs]; [lia|].
  assert (Hlen : length (Split (Join (drop i (Split d ".")) ".") ".")
                 = (length (Split d ".") - i)%nat)
    by (by rewrite Hs, length_drop).
  split; [by eexists|]. split; [lia|]. split; [lia|]. split.
  - intros E. rewrite E in Hlen. lia.
  - intros E. rewrite E in Hlen.
    assert (Hl : Split (List.last (Split d ".") "") "." = [List.last (Split d ".") ""]).
    { pose proof (Split_pieces d ".") as Hp. rewrite Forall_forall in Hp.
      apply Hp, list_elem_of_In.
      destruct (exists_last (Split_nonempty d ".")) as (l & x & ->).
      rewrite last_last. apply in_app_iff. right. by left. }
    rewrite Hl in Hlen. simpl in Hlen. lia.
Qed.

(** C1. [matchDomain] lower-cases its input and looks it up in the
    domain index, returning the owner at once on a hit; otherwise it
    tries, in order, the suffixes that start at label index 1 up to the
    second-to-last label and returns the first hit; no candidate is the
    bare final label or the whole string; it reports not-found exactly
    when the exact lookup and every candidate miss.  In particular a
    domain that a services file lists verbatim is matched to the service
    that owns it in the index built from that file. *)
Theorem matchDomain_exact_then_suffixes (a : Analyzer) (domain : string) :
  matchDomain a domain = Match_spec a domain
  /\ (forall svc, domainMap a !! ToLower domain = Some svc ->
                  matchDomain a domain = (svc, true))
  /\ Forall (fun c =>
               (exists p, ToLower domain = p +:+ "." +:+ c)
               /\ (2 <= length (Split c "."))%nat
               /\ (length (Split c ".") < length (Split (ToLower domain) "."))%nat
               /\ c <> ToLower domain
               /\ c <> List.last (Split (ToLower domain) ".") "")
            (suffixCandidates (ToLower domain))
  /\ (matchDomain a domain = (zeroAIService, false) <->
        domainMap a !! ToLower domain = None
        /\ Forall (fun c => domainMap a !! c = None)
                  (suffixCandidates (ToLower domain)))
  /\ (forall sf svc,
         New (Content sf) = inl a -> svc ∈ Services sf -> domain ∈ Domains svc ->
         exists owner,
           ownerOf (Services sf) (ToLower domain) = Some owner
           /\ matchDomain a domain = (owner, true)).
Proof.
  assert (Hexact : forall svc, domainMap a !! ToLower domain = Some svc ->
                               matchDomain a domain = (svc, true)).
  { intros svc Hsvc. unfold matchDomain. by rewrite Hsvc. }
  split; [apply matchDomain_Match_spec|]. split; [exact Hexact|].
  split; [apply suffixCandidates_proper|]. split.
  - rewrite matchDomain_Match_spec. unfold Match_spec.
    destruct (domainMap a !! ToLower domain) eqn:E.
    + split; [done|]. by intros [? _].
    + rewrite <- firstHit_None.
      destruct (firstHit (domainMap a) (suffixCandidates (ToLower domain))).
      * split; [done|]. by intros [_ ?].
      * done.
  - intros sf svc Hnew Hsvc Hd. injection Hnew as <-.
    destruct (ownerOf_listed _ _ _ Hsvc Hd) as [owner Ho].
    exists owner. split; [done|]. apply Hexact. simpl.
    by rewrite insertServices_lookup, Ho.
Qed.

(** The loop reaches index [L] and stops there when everything before
    it misses. *)
Lemma matchParents_reaches m parts svc L n i :
  (i <= L)%nat -> (L < i + n)%nat ->
  (forall j, (i <= j < L)%nat -> m !! Join (drop j parts) "." = None) ->
  m !! Join (drop L parts) "." = Some svc ->
  matchParents m parts i n = Some svc.
Proof.
  revert i. induction n as [|n IH]; intros i Hi Hn Hmiss Hhit; [lia|].
  simpl. destruct (decide (i = L)) as [->|Hne].
  - by rewrite Hhit.
  - rewrite Hmiss by lia. apply IH; [lia|lia| |done].
    intros j Hj. apply Hmiss. lia.
Qed.







(** X4. Matching ignores the case of its input. *)
Theorem matchDomain_case_insensitive (a : Analyzer) (domain : string) :
  matchDomain a (ToLower domain) = matchDomain a domain.
Proof. unfold matchDomain. by rewrite ToLower_idem. Qed.

(** X3. Every key of the index of an analyzer that the program builds
    is lower-case. *)
Theorem domainMap_keys_lower (a : Analyzer) (key : string) :
  Built a -> is_Some (domainMap a !! key) -> ToLower key = key.
Proof. intros Hb. by apply Built_keys_lower. Qed.

(** The hypotheses of [domainMap_keys_lower] hold of a custom catalogue
    merged into a base catalogue. *)
Lemma domainMap_keys_lower_witness :
  ToLower "api.openai.com" = "api.openai.com".
Proof.
  apply (domainMap_keys_lower
           (fst (LoadCustomDomains
                   (Content (mkServicesFile [mkAIService "Corp GPT" "Internal" ["API.OpenAI.com"]]))
                   (mkAnalyzer (insertServices [openai] ∅))))).
  - apply Built_Load. by apply (Built_New (Content (mkServicesFile [openai]))).
  - vm_compute. by eexists.
Defined.

End Matcher.

(** ** The aggregator *)

Section Aggregator.

Lemma wrapInt_small z : - 2 ^ 63 <= z <= MaxInt -> wrapInt z = z.
Proof. unfold wrapInt, MaxInt. intros H. rewrite Z.mod_small; lia. Qed.

Lemma sumCounts_empty : sumCounts ∅ = 0.
Proof. apply map_fold_empty. Qed.

Lemma sumCounts_insert (m : gmap string Z) k v :
  sumCounts (<[k := v]> m) = v + sumCounts m - default 0 (m !! k).
Proof.
  unfold sumCounts. destruct (m !! k) as [w|] eqn:E; simpl.
  - rewrite <- insert_delete_eq.
    rewrite map_fold_insert_L; [|intros; lia|apply lookup_delete_eq].
    rewrite (map_fold_delete_L _ _ k w m); [lia|intros; lia|done].
  - rewrite map_fold_insert_L; [lia|intros; lia|done].
Qed.

Lemma tally_snoc m keys k : tally m (keys ++ [k]) = incr k (tally m keys).
Proof. unfold tally. by rewrite fold_left_app. Qed.

Lemma occurrences_snoc k keys x :
  occurrences k (keys ++ [x]) = occurrences k keys + (if String.eqb k x then 1 else 0).
Proof. induction keys as [|y keys IH]; simpl; [lia|]. rewrite IH. lia. Qed.

Lemma occurrences_bounds k keys : 0 <= occurrences k keys <= len keys.
Proof.
  unfold len. induction keys as [|y keys IH]; simpl length; simpl occurrences; [lia|].
  destruct (String.eqb k y); lia.
Qed.

(** The keys of a tally are the keys counted, whatever the counts. *)
Lemma tally_dom m keys : dom (tally m keys) = dom m ∪ list_to_set keys.
Proof.
  revert m. induction keys as [|k keys IH]; intros m; simpl.
  - by rewrite (right_id_L ∅ (∪)).
  - fold (tally (incr k m) keys). rewrite IH. unfold incr. rewrite dom_insert_L.
    by rewrite (comm_L (∪) {[k]} (dom m)), <- (assoc_L (∪)).
Qed.

Lemma tally_size keys : size (tally ∅ keys) = distinct keys.
Proof.
  unfold distinct. rewrite <- (size_dom (D := gset string) (tally ∅ keys)).
  by rewrite tally_dom, dom_empty_L, (left_id_L ∅ (∪)).
Qed.

(** As long as the counts fit an [int], a tally holds, for every key
    counted, the number of its occurrences. *)
Lemma tally_lookup keys k :
  len keys <= MaxInt ->
  tally ∅ keys !! k
  = if occurrences k keys =? 0 then None else Some (occurrences k keys).
Proof.
  induction keys as [|x keys IH] using rev_ind; intros Hlen; [done|].
  unfold len in *. rewrite length_app in Hlen. simpl in Hlen.
  rewrite tally_snoc, occurrences_snoc. unfold incr.
  pose proof (occurrences_bounds k keys) as Hk.
  pose proof (occurrences_bounds x keys) as Hx. unfold len in *.
  destruct (String.eqb_spec k x) as [->|Hne].
  - rewrite lookup_insert_eq, IH by lia.
    destruct (Z.eqb_spec (occurrences x keys) 0) as [E|E]; simpl.
    + rewrite E. by rewrite wrapInt_small by (unfold MaxInt; lia).
    + rewrite wrapInt_small by (unfold MaxInt in *; lia).
      destruct (Z.eqb_spec (occurrences x keys + 1) 0); [lia|done].
  - rewrite lookup_insert_ne by done. rewrite IH by lia. by rewrite Z.add_0_r.
Qed.

Lemma tally_sum keys : len keys <= MaxInt -> sumCounts (tally ∅ keys) = len keys.
Proof.
  induction keys as [|x keys IH] using rev_ind; intros Hlen.
  - apply sumCounts_empty.
  - unfold len in *. rewrite length_app in *. simpl in Hlen.
    rewrite tally_snoc. unfold incr. rewrite sumCounts_insert, IH by lia.
    rewrite tally_lookup by (unfold len; lia).
    pose proof (occurrences_bounds x keys) as Hx. unfold len in Hx.
    destruct (Z.eqb_spec (occurrences x keys) 0) as [E|E]; simpl.
    + rewrite wrapInt_small by (unfold MaxInt; lia). simpl. lia.
    + rewrite wrapInt_small by (unfold MaxInt in *; lia). simpl. lia.
Qed.

Lemma analyzeEntry_unmatched a s e :
  matched a e = false -> analyzeEntry a s e = s.
Proof.
  unfold matched, analyzeEntry. destruct (matchDomain a (Domain e)) as [svc found].
  simpl. by intros ->.
Qed.

Lemma analyzeEntry_matched a s e :
  matched a e = true ->
  analyzeEntry a s e
  = mkSummary (TotalLogsScanned s) (TotalFindings s) (UniqueUsers s) (UniqueServices s)
      (Findings s ++ [matchedFinding a e])
      (incr (fSourceIP (matchedFinding a e)) (ByUser s))
      (incr (fServiceName (matchedFinding a e)) (ByService s)).
Proof.
  unfold matched, matchedFinding, analyzeEntry.
  destruct (matchDomain a (Domain e)) as [svc found]. simpl. by intros ->.
Qed.

(** The loop of [Analyze], entry by entry: the findings are those of the
    matched entries in input order, and the two mappings tally their
    sources and their service names. *)
Lemma Analyze_loop a entries s :
  fold_left (analyzeEntry a) entries s
  = mkSummary (TotalLogsScanned s) (TotalFindings s) (UniqueUsers s) (UniqueServices s)
      (Findings s ++ map (matchedFinding a) (List.filter (matched a) entries))
      (tally (ByUser s) (map fSourceIP (map (matchedFinding a) (List.filter (matched a) entries))))
      (tally (ByService s) (map fServiceName (map (matchedFinding a) (List.filter (matched a) entries)))).
Proof.
  revert s. induction entries as [|e entries IH]; intros s.
  - simpl. rewrite app_nil_r. by destruct s.
  - cbn [fold_left List.filter]. rewrite IH. destruct (matched a e) eqn:E.
    + rewrite analyzeEntry_matched by done. cbn [map]. simpl.
      by rewrite <- app_assoc.
    + by rewrite analyzeEntry_unmatched.
Qed.

(** C3. Over [N] entries of which [K] are matched, [Analyze] returns
    [TotalLogsScanned = N] and [TotalFindings = K], the findings are
    those of the matched entries in input order, and [UniqueUsers] and
    [UniqueServices] count the distinct source addresses and the
    distinct service names among the findings. *)
Theorem Analyze_counts (a : Analyzer) (entries : list LogEntry) :
  TotalLogsScanned (Analyze a entries) = len entries
  /\ TotalFindings (Analyze a entries) = len (List.filter (matched a) entries)
  /\ Findings (Analyze a entries)
     = map (matchedFinding a) (List.filter (matched a) entries)
  /\ UniqueUsers (Analyze a entries)
     = Z.of_nat (distinct (map fSourceIP (Findings (Analyze a entries))))
  /\ UniqueServices (Analyze a entries)
     = Z.of_nat (distinct (map fServiceName (Findings (Analyze a entries)))).
Proof.
  unfold Analyze. rewrite Analyze_loop. simpl. unfold len, distinct.
  rewrite !length_map, !tally_size. by repeat split.
Qed.

(** C10. The summary of [Analyze] is consistent with itself: the number
    of findings is the length of the list, the counts of each mapping
    add up to it, the two unique counts are the numbers of keys of the
    mappings, and the findings do not outnumber the entries scanned. *)
Theorem Analyze_consistent (a : Analyzer) (entries : list LogEntry) :
  len entries <= MaxInt ->
  TotalFindings (Analyze a entries) = len (Findings (Analyze a entries))
  /\ sumCounts (ByUser (Analyze a entries)) = TotalFindings (Analyze a entries)
  /\ sumCounts (ByService (Analyze a entries)) = TotalFindings (Analyze a entries)
  /\ UniqueUsers (Analyze a entries) = Z.of_nat (size (dom (ByUser (Analyze a entries))))
  /\ UniqueServices (Analyze a entries)
     = Z.of_nat (size (dom (ByService (Analyze a entries))))
  /\ TotalFindings (Analyze a entries) <= TotalLogsScanned (Analyze a entries).
Proof.
  intros Hlen. unfold Analyze. rewrite Analyze_loop. simpl.
  assert (Hle : len (map (matchedFinding a) (List.filter (matched a) entries))
                <= len entries).
  { unfold len. rewrite length_map. apply inj_le, filter_length_le. }
  repeat split.
  - rewrite tally_sum; unfold len in *; rewrite !length_map in *; lia.
  - rewrite tally_sum; unfold len in *; rewrite !length_map in *; lia.
  - by rewrite size_dom.
  - by rewrite size_dom.
  - done.
Qed.

(** The hypothesis of [Analyze_consistent] holds of a log of three
    entries, two of them matched. *)
Lemma Analyze_consistent_witness :
  let a := mkAnalyzer (insertServices [openai] ∅) in
  let entry src dom := mkLogEntry zeroTime src dom "" "" "" 0 "" in
  let entries := [entry "10.0.0.1" "api.openai.com"; entry "10.0.0.2" "example.org";
                  entry "10.0.0.1" "chat.openai.com"] in
  TotalFindings (Analyze a entries) = len (Findings (Analyze a entries))
  /\ sumCounts (ByUser (Analyze a entries)) = TotalFindings (Analyze a entries)
  /\ sumCounts (ByService (Analyze a entries)) = TotalFindings (Analyze a entries)
  /\ UniqueUsers (Analyze a entries) = Z.of_nat (size (dom (ByUser (Analyze a entries))))
  /\ UniqueServices (Analyze a entries)
     = Z.of_nat (size (dom (ByService (Analyze a entries))))
  /\ TotalFindings (Analyze a entries) <= TotalLogsScanned (Analyze a entries).
Proof. intros a entry entries. apply (Analyze_consistent a entries). vm_compute. discriminate. Defined.

Lemma occurrences_Permutation k l l' :
  Permutation l l' -> occurrences k l = occurrences k l'.
Proof.
  induction 1 as [|x l l' _ IH|x y l|l l' l'' _ IH1 _ IH2]; simpl; [done|lia|lia|].
  by rewrite IH1.
Qed.

Lemma filter_Permutation {A} (f : A -> bool) l l' :
  Permutation l l' -> Permutation (List.filter f l) (List.filter f l').
Proof.
  induction 1 as [|x l l' _ IH|x y l|l l' l'' _ IH1 _ IH2]; simpl.
  - done.
  - destruct (f x); [by constructor|done].
  - destruct (f x), (f y); try done. apply perm_swap.
  - by etrans.
Qed.

Lemma tally_Permutation keys keys' :
  Permutation keys keys' -> len keys <= MaxInt -> tally ∅ keys = tally ∅ keys'.
Proof.
  intros Hp Hlen. apply map_eq. intros k.
  rewrite !tally_lookup; [by rewrite (occurrences_Permutation k _ _ Hp)| |done].
  unfold len in *. by rewrite <- (Permutation_length Hp).
Qed.

(** X2. The counts of [Analyze] do not depend on the order of the entries:
    two logs with the same entries in another order give the same totals
    and the same two mappings. *)
Theorem Analyze_order_independent (a : Analyzer) (entries entries' : list LogEntry) :
  Permutation entries entries' ->
  len entries <= MaxInt ->
  TotalLogsScanned (Analyze a entries) = TotalLogsScanned (Analyze a entries')
  /\ TotalFindings (Analyze a entries) = TotalFindings (Analyze a entries')
  /\ UniqueUsers (Analyze a entries) = UniqueUsers (Analyze a entries')
  /\ UniqueServices (Analyze a entries) = UniqueServices (Analyze a entries')
  /\ ByUser (Analyze a entries) = ByUser (Analyze a entries')
  /\ ByService (Analyze a entries) = ByService (Analyze a entries').
Proof.
  intros Hp Hlen. unfold Analyze. rewrite !Analyze_loop. simpl.
  pose proof (filter_Permutation (matched a) _ _ Hp) as Hf.
  assert (Hle : len (List.filter (matched a) entries) <= MaxInt).
  { unfold len in *. pose proof (filter_length_le (matched a) entries). lia. }
  assert (Hu : tally ∅ (map fSourceIP (map (matchedFinding a) (List.filter (matched a) entries)))
               = tally ∅ (map fSourceIP (map (matchedFinding a) (List.filter (matched a) entries')))).
  { apply tally_Permutation; [by do 2 apply Permutation_map|].
    unfold len in *. by rewrite !length_map. }
  assert (Hs : tally ∅ (map fServiceName (map (matchedFinding a) (List.filter (matched a) entries)))
               = tally ∅ (map fServiceName (map (matchedFinding a) (List.filter (matched a) entries')))).
  { apply tally_Permutation; [by do 2 apply Permutation_map|].
    unfold len in *. by rewrite !length_map. }
  rewrite Hu, Hs. unfold len. rewrite !length_map.
  rewrite (Permutation_length Hp), (Permutation_length Hf). done.
Qed.

(** The hypotheses of [Analyze_order_independent] hold of a log of two
    entries and its reverse. *)
Lemma Analyze_order_independent_witness :
  let a := mkAnalyzer (insertServices [openai] ∅) in
  let entry src dom := mkLogEntry zeroTime src dom "" "" "" 0 "" in
  let entries := [entry "10.0.0.1" "api.openai.com"; entry "10.0.0.2" "openai.com"] in
  let entries' := [entry "10.0.0.2" "openai.com"; entry "10.0.0.1" "api.openai.com"] in
  TotalLogsScanned (Analyze a entries) = TotalLogsScanned (Analyze a entries')
  /\ TotalFindings (Analyze a entries) = TotalFindings (Analyze a entries')
  /\ UniqueUsers (Analyze a entries) = UniqueUsers (Analyze a entries')
  /\ UniqueServices (Analyze a entries) = UniqueServices (Analyze a entries')
  /\ ByUser (Analyze a entries) = ByUser (Analyze a entries')
  /\ ByService (Analyze a entries) = ByService (Analyze a entries').
Proof.
  intros a entry entries entries'.
  apply (Analyze_order_independent a entries entries').
  - apply perm_swap.
  - vm_compute. discriminate.
Defined.

End Aggregator.

(** ** The parsers *)

Section ParserFacts.
Context {lib : GoLib}.
Import strings.

Lemma squid_loop lines acc :
  fold_left squidStep lines acc = (acc ++ parsedLines parseSquidLine lines)%list.
Proof.
  revert acc. induction lines as [|line lines IH]; intros acc; simpl.
  - by rewrite app_nil_r.
  - rewrite IH. unfold squidStep. destruct (blankOrComment line); [done|].
    destruct (parseSquidLine line); [|done]. by rewrite <- app_assoc.
Qed.

Lemma dns_loop lines acc :
  fold_left dnsStep lines acc = (acc ++ parsedLines parseDNSLine lines)%list.
Proof.
  revert acc. induction lines as [|line lines IH]; intros acc; simpl.
  - by rewrite app_nil_r.
  - rewrite IH. unfold dnsStep. destruct (blankOrComment line); [done|].
    destruct (parseDNSLine line); [|done]. by rewrite <- app_assoc.
Qed.

Lemma csv_loop ts src dst bytes action rows acc :
  fold_left (csvStep ts src dst bytes action) rows acc
  = (acc ++ csvRows ts src dst bytes action rows)%list.
Proof.
  revert acc. induction rows as [|row rows IH]; intros acc; simpl.
  - by rewrite app_nil_r.
  - rewrite IH. unfold csvStep.
    destruct (String.eqb (Domain (csvEntry ts src dst bytes action row)) ""); simpl;
      [done|]. by rewrite <- app_assoc.
Qed.

(** An entry is returned only for a line that was parsed. *)
Lemma parsedLines_elem parse lines entry :
  entry ∈ parsedLines parse lines <->
  exists line, line ∈ lines /\ blankOrComment line = false /\ parse line = inl entry.
Proof.
  unfold parsedLines. rewrite list_elem_of_In, in_flat_map. split.
  - intros (line & Hl & He). exists line. rewrite list_elem_of_In.
    destruct (blankOrComment line); [done|].
    destruct (parse line) as [e|]; [|done]. destruct He as [->|[]]. done.
  - intros (line & Hl & Hb & Hp). exists line. rewrite <- list_elem_of_In.
    split; [done|]. rewrite Hb, Hp. by left.
Qed.


(** The header mapping holds the normalised names of the header, each
    with a column index that is not negative. *)
Lemma mapColumns_fold header (m : gmap string Z) i name :
  (is_Some (fst (fold_left
              (fun '(m, i) col => (<[ToLower (TrimSpace col) := i]> m, i + 1))
              header (m, i)) !! name)
   <-> is_Some (m !! name) \/ name ∈ map (fun col => ToLower (TrimSpace col)) header)
  /\ (0 <= i -> (forall v, m !! name = Some v -> 0 <= v) ->
      forall v, fst (fold_left
                  (fun '(m, i) col => (<[ToLower (TrimSpace col) := i]> m, i + 1))
                  header (m, i)) !! name = Some v -> 0 <= v).
Proof.
  revert m i. induction header as [|col header IH]; intros m i; simpl.
  - split; [|by auto]. split; [by left|]. intros [?|H]; [done|]. by apply elem_of_nil in H.
  - destruct (IH (<[ToLower (TrimSpace col) := i]> m) (i + 1)) as [IH1 IH2].
    split.
    + rewrite IH1, elem_of_cons.
      destruct (decide (name = ToLower (TrimSpace col))) as [->|Hne].
      * rewrite lookup_insert_eq. split; [intros _; right; by left|by left].
      * rewrite lookup_insert_ne by done. split; intros [?|?]; auto.
        destruct H as [?|?]; [done|auto].
    + intros Hi Hm. apply IH2; [lia|].
      destruct (decide (name = ToLower (TrimSpace col))) as [->|Hne].
      * rewrite lookup_insert_eq. intros v [= <-]. done.
      * by rewrite lookup_insert_ne.
Qed.



Lemma ReadAll_Some rows records : ReadAll rows = Some records -> records = rows.
Proof.
  destruct rows as [|first rest]; simpl; [by intros [= <-]|].
  destruct (forallb _ rest); [by intros [= <-]|done].
Qed.

(** [CSVParser.Parse] on the rows of a file that was opened. *)
Lemma CSVParser_Parse_rows rows :
  CSVParser_Parse (CSVRows rows)
  = match ReadAll rows with
    | None => inr ErrParsingCSV
    | Some _ =>
        if len rows <? 2 then inr ErrNoDataRows
        else if destinationColumn (hd [] rows) =? -1 then inr ErrMissingDestination
        else inl (csvEntries (hd [] rows) (tl rows))
    end.
Proof.
  unfold CSVParser_Parse, destinationColumn.
  destruct (ReadAll rows) as [records|] eqn:E; [|done].
  apply ReadAll_Some in E as ->.
  destruct (len rows <? 2); [done|].
  destruct (findCol (mapColumns (hd [] rows)) dstNames =? -1); [done|].
  by rewrite csv_loop.
Qed.










Lemma extractDomain_lower rawURL :
  ToLower (extractDomain rawURL) = extractDomain rawURL.
Proof.
  unfold extractDomain. destruct (negb _); [apply ToLower_idem|].
  destruct (url_Hostname rawURL); [apply ToLower_idem|done].
Qed.

Lemma parsedLines_Forall (P : LogEntry -> Prop) parse lines :
  (forall line entry, parse line = inl entry -> P entry) ->
  Forall P (parsedLines parse lines).
Proof.
  intros Hp. apply Forall_forall. intros entry He.
  apply parsedLines_elem in He as (line & _ & _ & He). by apply Hp in He.
Qed.

Lemma parseSquidLine_lower line entry :
  parseSquidLine line = inl entry -> ToLower (Domain entry) = Domain entry.
Proof.
  unfold parseSquidLine. destruct (_ <? 8); [done|].
  destruct (unixTimestamp _); [|done]. intros Heq. injection Heq as <-.
  apply extractDomain_lower.
Qed.

Lemma parseDNSLine_lower line entry :
  parseDNSLine line = inl entry -> ToLower (Domain entry) = Domain entry.
Proof.
  unfold parseDNSLine.
  destruct (parseSimpleDNS line) as [e|err] eqn:E.
  - intros Heq. injection Heq as <-. revert E. unfold parseSimpleDNS.
    destruct (_ <? 3); [done|]. destruct (time_Parse _ _); [|done].
    intros Heq. injection Heq as <-. apply ToLower_idem.
  - unfold parseDnsmasq.
    destruct (Index line "query[" =? -1); [done|].
    destruct (Index _ "] " =? -1); [done|].
    destruct (_ || _); [done|]. intros Heq. injection Heq as <-.
    apply ToLower_idem.
Qed.

Lemma csvEntry_lower ts src dst bytes action row :
  ToLower (Domain (csvEntry ts src dst bytes action row))
  = Domain (csvEntry ts src dst bytes action row).
Proof.
  unfold csvEntry. destruct (cell row dst) as [c|]; [|done].
  destruct (Contains _ _); simpl; [apply extractDomain_lower|apply ToLower_idem].
Qed.

(** X1. Every entry that a parser returns has a lower-case domain. *)
Theorem Domain_lower_cased :
  (forall file entries,
     SquidParser_Parse file = inl entries ->
     Forall (fun entry => ToLower (Domain entry) = Domain entry) entries)
  /\ (forall file entries,
        DNSParser_Parse file = inl entries ->
        Forall (fun entry => ToLower (Domain entry) = Domain entry) entries)
  /\ (forall file entries,
        CSVParser_Parse file = inl entries ->
        Forall (fun entry => ToLower (Domain entry) = Domain entry) entries).
Proof.
  split; [|split].
  - intros [|lines [|]] entries; simpl; try done. rewrite squid_loop.
    intros Heq. injection Heq as <-.
    apply parsedLines_Forall, parseSquidLine_lower.
  - intros [|lines [|]] entries; simpl; try done. rewrite dns_loop.
    intros Heq. injection Heq as <-.
    apply parsedLines_Forall, parseDNSLine_lower.
  - intros [| |rows] entries; try done. rewrite CSVParser_Parse_rows.
    destruct (ReadAll rows); [|done].
    destruct (_ <? 2); [done|]. destruct (_ =? -1); [done|].
    intros Heq. injection Heq as <-. unfold csvEntries, csvRows.
    apply Forall_forall. intros e He.
    apply list_elem_of_In, in_flat_map in He as (row & _ & He).
    destruct (String.eqb _ ""); [done|]. destruct He as [<-|[]].
    apply csvEntry_lower.
Qed.

Lemma mapColumns_fold_lt header (m : gmap string Z) i name v :
  (forall w, m !! name = Some w -> w < i) ->
  fst (fold_left
         (fun '(m, i) col => (<[ToLower (TrimSpace col) := i]> m, i + 1))
         header (m, i)) !! name = Some v ->
  v < i + len header.
Proof.
  unfold len. revert m i. induction header as [|col header IH]; intros m i Hm; simpl.
  - intros H. apply Hm in H. lia.
  - intros H. apply IH in H; [lia|]. intros w.
    destruct (decide (name = ToLower (TrimSpace col))) as [->|Hne].
    + rewrite lookup_insert_eq. intros [= <-]. lia.
    + rewrite lookup_insert_ne by done. intros Hw. apply Hm in Hw. lia.
Qed.

Lemma findCol_lookup (colMap : gmap string Z) names v :
  findCol colMap names = v -> v <> -1 ->
  exists name, colMap !! name = Some v.
Proof.
  induction names as [|name names IH]; simpl; [congruence|].
  destruct (colMap !! name) as [w|] eqn:E; [|done].
  intros <- _. by exists name.
Qed.

Lemma ReadAll_uniform rows row :
  ReadAll rows = Some rows -> row ∈ tl rows -> length row = length (hd [] rows).
Proof.
  destruct rows as [|first rest]; simpl; [by intros _ H; apply elem_of_nil in H|].
  destruct (forallb _ rest) eqn:E; [|done]. intros _ Hrow.
  rewrite forallb_forall in E. apply list_elem_of_In, E in Hrow.
  by apply Nat.eqb_eq in Hrow.
Qed.

(** X5. When the CSV reader has delivered the records and the header
    has a destination column, every data row has a cell in that column:
    the guard on the length of the row never fails. *)
Theorem destination_cell_present (rows : list (list string)) (row : list string) :
  ReadAll rows = Some rows ->
  destinationColumn (hd [] rows) <> -1 ->
  row ∈ tl rows ->
  is_Some (cell row (destinationColumn (hd [] rows))).
Proof.
  intros Hread Hdst Hrow. unfold cell.
  destruct (findCol_lookup _ _ _ eq_refl Hdst) as [name Hname].
  fold (destinationColumn (hd [] rows)) in Hname. unfold mapColumns in Hname.
  pose proof (mapColumns_fold_lt _ _ _ _ _
                (fun w (H : (∅ : gmap string Z) !! name = Some w) =>
                   ltac:(by rewrite lookup_empty in H)) Hname) as Hlt.
  destruct (mapColumns_fold (hd [] rows) ∅ 0 name) as [_ Hpos].
  apply Hpos in Hname; [|lia|intros w; by rewrite lookup_empty].
  unfold len in *. rewrite (ReadAll_uniform _ _ Hread Hrow).
  destruct (Z.leb_spec 0 (destinationColumn (hd [] rows))); [|lia].
  destruct (Z.ltb_spec (destinationColumn (hd [] rows))
                       (Z.of_nat (length (hd [] rows)))); [|lia].
  by eexists.
Qed.

(** C9 (amended). For a dnsmasq line, when the text before the marker
    parses against the year-less layout (to a date of year 0, as
    [time.Parse] gives it), the timestamp of the entry carries the year
    of the clock with the parsed month, day and clock time, except that
    a parsed 29 February becomes 1 March when the year of the clock is
    not a leap year; when the text does not parse, the timestamp is the
    zero value. *)
Theorem parseDnsmasq_timestamp (line : string) (entry : LogEntry) :
  parseDnsmasq line = inl entry ->
  match time_Parse syslogLayout (dnsmasqStamp line (Index line "query[")) with
  | None => Timestamp entry = zeroTime
  | Some t =>
      Year t = 0 -> 1 <= Day t <= daysIn (Month t) 0 ->
      Timestamp entry
      = if (Month t =? 2) && (Day t =? 29) && negb (isLeap (Year time_Now))
        then mkTime (Year time_Now) 3 1 (Hour t) (Minute t) (Second t) (Nanosecond t)
        else mkTime (Year time_Now) (Month t) (Day t)
                    (Hour t) (Minute t) (Second t) (Nanosecond t)
  end.
Proof.
  unfold parseDnsmasq.
  destruct (Index line "query[" =? -1); [done|].
  destruct (Index _ "] " =? -1); [done|].
  destruct (_ || _); [done|]. intros Heq. injection Heq as <-.
  cbn [Timestamp].
  destruct (time_Parse syslogLayout _) as [t|]; [|done].
  intros Hy Hd. unfold AddDate. rewrite Hy, Z.add_0_l.
  unfold daysIn in *. change (isLeap 0) with true in Hd.
  destruct (Month t =? 2) eqn:Em.
  - apply Z.eqb_eq in Em. rewrite Em.
    destruct (isLeap (Year time_Now)) eqn:El; simpl.
    + rewrite andb_false_r. destruct (Z.leb_spec (Day t) 29); [done|lia].
    + rewrite andb_true_r. destruct (Z.eqb_spec (Day t) 29) as [E|E].
      * rewrite E. reflexivity.
      * destruct (Z.leb_spec (Day t) 28); [done|lia].
  - simpl. destruct (_ || _).
    + destruct (Z.leb_spec (Day t) 30); [done|lia].
    + destruct (Z.leb_spec (Day t) 31); [done|lia].
Qed.

End ParserFacts.

(** ** The parsers on sample lines *)

Section Samples.
Import strings.

(** The hypotheses of [parseDnsmasq_timestamp] hold of a line with a
    host name before the [dnsmasq] tag. *)
Lemma parseDnsmasq_timestamp_witness :
  @parseDnsmasq sampleLib
    "Jun 10 08:30:00 myhost dnsmasq[1234]: query[A] api.openai.com from 192.168.1.50"
  = inl (mkLogEntry (mkTime 2026 6 10 8 30 0 0) "192.168.1.50" "api.openai.com"
           "" "" "" 0
           "Jun 10 08:30:00 myhost dnsmasq[1234]: query[A] api.openai.com from 192.168.1.50")
  /\ @time_Parse sampleLib syslogLayout "Jun 10 08:30:00" = Some (mkTime 0 6 10 8 30 0 0)
  /\ Timestamp (mkLogEntry (mkTime 2026 6 10 8 30 0 0) "192.168.1.50" "api.openai.com"
                  "" "" "" 0
                  "Jun 10 08:30:00 myhost dnsmasq[1234]: query[A] api.openai.com from 192.168.1.50")
     = mkTime (Year (@time_Now sampleLib)) 6 10 8 30 0 0.
Proof.
  split; [vm_compute; reflexivity|]. split; [reflexivity|].
  pose proof (@parseDnsmasq_timestamp sampleLib
                "Jun 10 08:30:00 myhost dnsmasq[1234]: query[A] api.openai.com from 192.168.1.50"
                _ eq_refl) as H.
  vm_compute in H. apply H; [reflexivity|split; discriminate].
Defined.

(** C9 as it was stated fails on 29 February: in 2026 the parsed month
    and day, 2 and 29, come out as 1 March. *)
Lemma parseDnsmasq_timestamp_counterexample :
  dnsmasqStamp
    "Feb 29 08:30:00 dnsmasq[1234]: query[A] api.openai.com from 192.168.1.50"
    (Index "Feb 29 08:30:00 dnsmasq[1234]: query[A] api.openai.com from 192.168.1.50"
           "query[")
  = "Feb 29 08:30:00"
  /\ @time_Parse sampleLib syslogLayout "Feb 29 08:30:00" = Some (mkTime 0 2 29 8 30 0 0)
  /\ Year (@time_Now sampleLib) = 2026
  /\ @parseDnsmasq sampleLib
       "Feb 29 08:30:00 dnsmasq[1234]: query[A] api.openai.com from 192.168.1.50"
     = inl (mkLogEntry (mkTime 2026 3 1 8 30 0 0) "192.168.1.50" "api.openai.com"
              "" "" "" 0
              "Feb 29 08:30:00 dnsmasq[1234]: query[A] api.openai.com from 192.168.1.50").
Proof. vm_compute. repeat split. Qed.




(** The hypotheses of [destination_cell_present] hold of a file with a
    header and one data row. *)
Lemma destination_cell_present_witness :
  is_Some (cell ["192.168.1.50"; "api.openai.com"]
                (destinationColumn (hd [] [["src_ip"; "domain"];
                                           ["192.168.1.50"; "api.openai.com"]]))).
Proof.
  apply (destination_cell_present
           [["src_ip"; "domain"]; ["192.168.1.50"; "api.openai.com"]]).
  - reflexivity.
  - vm_compute. discriminate.
  - by left.
Defined.

(** C7 at its failing inputs. The Squid and CSV parsers keep the
    trailing dot of a fully qualified name, the DNS parser strips it, and
    the matcher does not know the dotted name. *)
Lemma Domain_trailing_dot_kept :
  (exists entry,
     @parseSquidLine sampleLib
       "1718000000.000 200 192.168.1.50 TCP_TUNNEL/200 1500 CONNECT api.openai.com.:443 - HIER_DIRECT/104.18.7.192 -"
     = inl entry
     /\ Domain entry = "api.openai.com.")
  /\ (exists entry,
        @CSVParser_Parse sampleLib
          (CSVRows [["src_ip"; "domain"]; ["192.168.1.50"; "api.openai.com."]])
        = inl [entry]
        /\ Domain entry = "api.openai.com.")
  /\ (exists entry,
        @parseDNSLine sampleLib "2025-06-10T08:30:00Z 192.168.1.50 api.openai.com. A"
        = inl entry
        /\ Domain entry = "api.openai.com")
  /\ matchDomain (mkAnalyzer (insertServices [openai] ∅)) "api.openai.com."
     = (zeroAIService, false)
  /\ matchDomain (mkAnalyzer (insertServices [openai] ∅)) "api.openai.com"
     = (openai, true).
Proof.
  split; [|split; [|split]]; [eexists; split; vm_compute; reflexivity ..|].
  vm_compute. split; reflexivity.
Qed.

(** C8 at its failing inputs. A DNS query for the root and a Squid
    request without a host come back as entries with an empty domain. *)
Lemma empty_Domain_returned :
  (exists entry,
     @DNSParser_Parse sampleLib (Scan ["2025-06-10T08:30:00Z 192.168.1.50 . NS"] false)
     = inl [entry]
     /\ Domain entry = "")
  /\ (exists entry,
        @DNSParser_Parse sampleLib
          (Scan ["Jun 10 08:30:00 dnsmasq[1234]: query[NS] . from 192.168.1.50"] false)
        = inl [entry]
        /\ Domain entry = "")
  /\ (exists entry,
        @SquidParser_Parse sampleLib
          (Scan ["1718000000.000 200 192.168.1.50 TCP_DENIED/400 0 CONNECT :443 - HIER_NONE/- -"]
                false)
        = inl [entry]
        /\ Domain entry = "").
Proof.
  split; [|split]; eexists; split; vm_compute; reflexivity.
Qed.

End Samples.

(** ** analyzer.go: counters, merging and aggregation *)

Section AnalyzerMore.
Import strings.

Lemma seen_names (m : gmap string AIService) name :
  name ∈ (map_fold (fun _ svc seen => {[Name svc]} ∪ seen) ∅ m : gset string)
  <-> exists key svc, m !! key = Some svc /\ Name svc = name.
Proof.
  revert name.
  apply (map_fold_weak_ind
           (fun (r : gset string) (m : gmap string AIService) =>
              forall name, name ∈ r <-> exists key svc, m !! key = Some svc /\ Name svc = name)).
  - intros name. split; [by intros ?%not_elem_of_empty|].
    intros (k & svc & H & _). by rewrite lookup_empty in H.
  - intros i x m' r Hi IH name. rewrite elem_of_union, elem_of_singleton, IH. split.
    + intros [->|(k & svc & Hk & Hn)].
      * exists i, x. by rewrite lookup_insert_eq.
      * exists k, svc. rewrite lookup_insert_ne; [done|]. intros <-. congruence.
    + intros (k & svc & Hk & Hn). destruct (decide (i = k)) as [<-|Hne].
      * rewrite lookup_insert_eq in Hk. left. congruence.
      * rewrite lookup_insert_ne in Hk by done. right. by exists k, svc.
Qed.

Lemma seen_size (m : gmap string AIService) :
  (size (map_fold (fun _ svc seen => {[Name svc]} ∪ seen) ∅ m : gset string) <= size m)%nat.
Proof.
  apply (map_fold_weak_ind
           (fun (r : gset string) (m : gmap string AIService) => (size r <= size m)%nat)).
  - rewrite (size_empty (C := gset string)). lia.
  - intros i x m' r Hi IH. rewrite map_size_insert_None by done.
    rewrite size_union_alt, size_singleton.
    pose proof (subseteq_size (r ∖ {[Name x]}) r) as H.
    assert (r ∖ {[Name x]} ⊆ r) as Hs by (intros y Hy; by apply elem_of_difference in Hy as [? _]).
    apply H in Hs. lia.
Qed.

Lemma distinct_le_length l : (distinct l <= length l)%nat.
Proof.
  unfold distinct. induction l as [|x l IH].
  - vm_compute. lia.
  - rewrite list_to_set_cons. simpl length. rewrite size_union_alt, size_singleton.
    pose proof (subseteq_size ((list_to_set l : gset string) ∖ {[x]}) (list_to_set l)) as H.
    assert ((list_to_set l : gset string) ∖ {[x]} ⊆ list_to_set l) as Hs
      by (intros y Hy; by apply elem_of_difference in Hy as [? _]).
    apply H in Hs. lia.
Qed.

Lemma ownerOf_listedKeys svcs key :
  is_Some (ownerOf svcs key) <-> key ∈ listedKeys svcs.
Proof.
  unfold listedKeys. induction svcs as [|svc svcs IH]; simpl.
  - split; [by intros [? ?]|by intros ?%elem_of_nil].
  - rewrite elem_of_app, <- IH. destruct (ownerOf svcs key) as [o|].
    + split; [right; by eexists|by eexists].
    + unfold lists. case_bool_decide as Hk.
      * split; [by left|by eexists].
      * split; [by intros [? ?]|]. intros [?|[? ?]]; done.
Qed.

Lemma insertServices_dom svcs (m : gmap string AIService) :
  dom (insertServices svcs m) = dom m ∪ list_to_set (listedKeys svcs).
Proof.
  apply set_eq. intros key.
  rewrite elem_of_union, elem_of_list_to_set, !elem_of_dom, insertServices_lookup.
  rewrite <- ownerOf_listedKeys.
  destruct (ownerOf svcs key); [|by split; [left|intros [?|[? ?]]]].
  split; [right; by eexists|by eexists].
Qed.

(** X6. [DomainCount] is the number of keys of the index and
    [ServiceCount] the number of distinct service names among its
    owners, so a service is counted once however many domains it owns
    and not at all when every domain of it was taken over; neither is
    negative, there are at most as many services as domains, and for an
    analyzer fresh from [New] the domains counted are the distinct
    lower-cased domains of the file and the services at most those of
    the file. *)
Theorem counts_of_index (a : Analyzer) :
  DomainCount a = Z.of_nat (size (dom (domainMap a)))
  /\ ServiceCount a
     = Z.of_nat (distinct (map (fun kv => Name (snd kv)) (map_to_list (domainMap a))))
  /\ 0 <= ServiceCount a <= DomainCount a
  /\ (ServiceCount a = 0 <-> DomainCount a = 0)
  /\ (forall sf, New (Content sf) = inl a ->
        DomainCount a = Z.of_nat (distinct (listedKeys (Services sf)))
        /\ ServiceCount a <= len (Services sf)).
Proof.
  assert (Hnames :
    (map_fold (fun _ svc seen => {[Name svc]} ∪ seen) ∅ (domainMap a) : gset string)
    = list_to_set (map (fun kv => Name (snd kv)) (map_to_list (domainMap a)))).
  { apply set_eq. intros name. rewrite seen_names, elem_of_list_to_set.
    rewrite list_elem_of_In, in_map_iff. split.
    - intros (k & svc & Hk & Hn). exists (k, svc). split; [done|].
      by apply list_elem_of_In, elem_of_map_to_list.
    - intros ([k svc] & Hn & Hin). exists k, svc. split; [|done].
      by apply elem_of_map_to_list, list_elem_of_In. }
  unfold ServiceCount, DomainCount.
  pose proof (seen_size (domainMap a)) as Hle.
  split; [by rewrite size_dom|]. split; [unfold distinct; by rewrite Hnames|].
  split; [lia|]. split.
  - split.
    + intros H0.
      assert (Hs : size (map_fold (fun _ svc seen => {[Name svc]} ∪ seen) ∅ (domainMap a)
                         : gset string) = 0%nat) by lia.
      apply size_empty_inv in Hs.
      assert (domainMap a = ∅) as ->; [|by rewrite map_size_empty].
      apply map_empty. intros k. destruct (domainMap a !! k) as [svc|] eqn:E; [|done].
      assert (Name svc ∈ (map_fold (fun _ svc seen => {[Name svc]} ∪ seen) ∅ (domainMap a)
                          : gset string)) as Hin by (apply seen_names; by exists k, svc).
      apply Hs in Hin. by apply not_elem_of_empty in Hin.
    + intros H0. lia.
  - intros sf Hnew. injection Hnew as <-. simpl. split.
    + rewrite <- (size_dom (D := gset string)), insertServices_dom, dom_empty_L.
      unfold distinct. by rewrite (left_id_L ∅ (∪)).
    + unfold len. apply inj_le.
      pose proof (distinct_le_length (map Name (Services sf))) as Hd.
      rewrite length_map in Hd. etrans; [|exact Hd].
      unfold distinct. apply subseteq_size. intros name.
      rewrite seen_names, elem_of_list_to_set. intros (k & svc & Hk & <-).
      rewrite insertServices_lookup, lookup_empty in Hk.
      destruct (ownerOf (Services sf) k) as [o|] eqn:E; [|done].
      injection Hk as ->. apply ownerOf_Some in E as [E _].
      by apply list_elem_of_In, in_map, list_elem_of_In.
Qed.


Lemma firstHit_is_Some m cands :
  is_Some (firstHit m cands) <-> Exists (fun c => is_Some (m !! c)) cands.
Proof.
  induction cands as [|c cands IH]; simpl.
  - split; [by intros [? ?]|by intros ?%Exists_nil].
  - rewrite Exists_cons, <- IH. destruct (m !! c) as [o|].
    + split; [left; by eexists|by eexists].
    + split; [by right|]. by intros [[? ?]|?].
Qed.


Lemma matchDomain_found_iff a d :
  snd (matchDomain a d) = true <->
  is_Some (domainMap a !! ToLower d)
  \/ Exists (fun c => is_Some (domainMap a !! c)) (suffixCandidates (ToLower d)).
Proof.
  rewrite matchDomain_Match_spec, <- firstHit_is_Some. unfold Match_spec.
  destruct (domainMap a !! ToLower d) as [o|]; simpl.
  - split; [left; by eexists|done].
  - destruct (firstHit _ _) as [o|]; simpl.
    + split; [right; by eexists|done].
    + split; [done|]. by intros [[? ?]|[? ?]].
Qed.

(** X7. Merging a custom catalogue never untracks anything: every key
    of the index stays a key, [DomainCount] does not decrease, and every
    domain that was matched before the merge is matched after it
    (possibly to another service).  When the custom file cannot be read
    or decoded the analyzer is left as it was. *)
Theorem LoadCustomDomains_never_untracks (file : Loaded servicesFile) (a : Analyzer) :
  (forall key, is_Some (domainMap a !! key) ->
               is_Some (domainMap (fst (LoadCustomDomains file a)) !! key))
  /\ DomainCount a <= DomainCount (fst (LoadCustomDomains file a))
  /\ (forall d, snd (matchDomain a d) = true ->
                snd (matchDomain (fst (LoadCustomDomains file a)) d) = true)
  /\ (is_Some (snd (LoadCustomDomains file a)) -> fst (LoadCustomDomains file a) = a).
Proof.
  assert (Hkeys : forall key, is_Some (domainMap a !! key) ->
                    is_Some (domainMap (fst (LoadCustomDomains file a)) !! key)).
  { intros key Hk. destruct file as [| |sf]; simpl; try done.
    rewrite insertServices_lookup. by destruct (ownerOf (Services sf) key). }
  split; [done|]. split; [|split].
  - unfold DomainCount. apply inj_le.
    rewrite <- !(size_dom (D := gset string)). apply subseteq_size.
    intros key. rewrite !elem_of_dom. apply Hkeys.
  - intros d. rewrite !matchDomain_found_iff. intros [H|H]; [left; by apply Hkeys|].
    right. eapply Exists_impl; [exact H|]. intros c. apply Hkeys.
  - destruct file as [| |sf]; simpl; try done.
Qed.

Lemma occurrences_app k l1 l2 :
  occurrences k (l1 ++ l2) = occurrences k l1 + occurrences k l2.
Proof. induction l1 as [|x l1 IH]; simpl; [done|]. rewrite IH. lia. Qed.

Lemma occurrences_pos k l : 0 < occurrences k l <-> k ∈ l.
Proof.
  induction l as [|x l IH]; simpl.
  - split; [lia|by intros ?%elem_of_nil].
  - rewrite elem_of_cons, <- IH. pose proof (occurrences_bounds k l) as [H _].
    destruct (String.eqb_spec k x) as [->|Hne].
    + split; [by left|lia].
    + split; [right; lia|]. intros [?|?]; [done|lia].
Qed.

Lemma tally_default keys k :
  len keys <= MaxInt -> default 0 (tally ∅ keys !! k) = occurrences k keys.
Proof.
  intros H. rewrite tally_lookup by done.
  by destruct (Z.eqb_spec (occurrences k keys) 0) as [->|].
Qed.

Lemma Analyze_Findings a entries :
  Findings (Analyze a entries) = map (matchedFinding a) (List.filter (matched a) entries).
Proof. unfold Analyze. by rewrite Analyze_loop. Qed.

Lemma Analyze_ByUser a entries :
  ByUser (Analyze a entries) = tally ∅ (map fSourceIP (Findings (Analyze a entries))).
Proof. unfold Analyze. by rewrite Analyze_loop. Qed.

Lemma Analyze_ByService a entries :
  ByService (Analyze a entries) = tally ∅ (map fServiceName (Findings (Analyze a entries))).
Proof. unfold Analyze. by rewrite Analyze_loop. Qed.

Lemma Analyze_TotalLogsScanned a entries :
  TotalLogsScanned (Analyze a entries) = len entries.
Proof. unfold Analyze. by rewrite Analyze_loop. Qed.

Lemma Analyze_TotalFindings a entries :
  TotalFindings (Analyze a entries) = len (Findings (Analyze a entries)).
Proof. unfold Analyze. by rewrite Analyze_loop. Qed.

Lemma Findings_len a entries : len (Findings (Analyze a entries)) <= len entries.
Proof.
  rewrite Analyze_Findings. unfold len. rewrite length_map.
  apply inj_le, filter_length_le.
Qed.

Lemma Analyze_user_count a entries k :
  len entries <= MaxInt ->
  default 0 (ByUser (Analyze a entries) !! k)
  = occurrences k (map fSourceIP (Findings (Analyze a entries))).
Proof.
  intros Hlen. pose proof (Findings_len a entries) as Hf. unfold len in *.
  rewrite Analyze_ByUser. apply tally_default. unfold len. rewrite length_map. lia.
Qed.

Lemma Analyze_service_count a entries k :
  len entries <= MaxInt ->
  default 0 (ByService (Analyze a entries) !! k)
  = occurrences k (map fServiceName (Findings (Analyze a entries))).
Proof.
  intros Hlen. pose proof (Findings_len a entries) as Hf. unfold len in *.
  rewrite Analyze_ByService. apply tally_default. unfold len. rewrite length_map. lia.
Qed.

(** X8. The two mappings of a summary hold exact counts: the source
    addresses and the service names that are keys are those of the
    findings, and each is mapped to the number of findings that carry
    it. *)
Theorem Analyze_hit_counts (a : Analyzer) (entries : list LogEntry) (k : string) :
  len entries <= MaxInt ->
  default 0 (ByUser (Analyze a entries) !! k)
  = occurrences k (map fSourceIP (Findings (Analyze a entries)))
  /\ (is_Some (ByUser (Analyze a entries) !! k)
      <-> k ∈ map fSourceIP (Findings (Analyze a entries)))
  /\ default 0 (ByService (Analyze a entries) !! k)
     = occurrences k (map fServiceName (Findings (Analyze a entries)))
  /\ (is_Some (ByService (Analyze a entries) !! k)
      <-> k ∈ map fServiceName (Findings (Analyze a entries))).
Proof.
  intros Hlen. rewrite Analyze_user_count, Analyze_service_count by done.
  rewrite Analyze_ByUser, Analyze_ByService.
  rewrite <- !elem_of_dom, !tally_dom, dom_empty_L, !(left_id_L ∅ (∪)).
  rewrite !elem_of_list_to_set. done.
Qed.

(** X9. [Analyze] is additive over concatenation: the findings of two
    logs scanned as one are the findings of the first followed by those
    of the second, the totals add up, and so does every per-source and
    per-service count. *)
Theorem Analyze_app (a : Analyzer) (l1 l2 : list LogEntry) :
  len (l1 ++ l2) <= MaxInt ->
  Findings (Analyze a (l1 ++ l2)) = (Findings (Analyze a l1) ++ Findings (Analyze a l2))%list
  /\ TotalLogsScanned (Analyze a (l1 ++ l2))
     = TotalLogsScanned (Analyze a l1) + TotalLogsScanned (Analyze a l2)
  /\ TotalFindings (Analyze a (l1 ++ l2))
     = TotalFindings (Analyze a l1) + TotalFindings (Analyze a l2)
  /\ (forall k,
        default 0 (ByUser (Analyze a (l1 ++ l2)) !! k)
        = default 0 (ByUser (Analyze a l1) !! k) + default 0 (ByUser (Analyze a l2) !! k))
  /\ (forall k,
        default 0 (ByService (Analyze a (l1 ++ l2)) !! k)
        = default 0 (ByService (Analyze a l1) !! k)
          + default 0 (ByService (Analyze a l2) !! k)).
Proof.
  intros Hlen.
  assert (Hf : Findings (Analyze a (l1 ++ l2))
               = (Findings (Analyze a l1) ++ Findings (Analyze a l2))%list).
  { rewrite !Analyze_Findings. by rewrite List.filter_app, map_app. }
  assert (H1 : len l1 <= MaxInt /\ len l2 <= MaxInt).
  { unfold len in *. rewrite length_app in Hlen. lia. }
  split; [done|]. split; [|split; [|split]].
  - rewrite !Analyze_TotalLogsScanned. unfold len. rewrite length_app. lia.
  - rewrite !Analyze_TotalFindings, Hf. unfold len. rewrite length_app. lia.
  - intros k. rewrite !Analyze_user_count by tauto.
    by rewrite Hf, map_app, occurrences_app.
  - intros k. rewrite !Analyze_service_count by tauto.
    by rewrite Hf, map_app, occurrences_app.
Qed.


End AnalyzerMore.

(** ** The parsers: order, noise lines and fields *)

Section ParserMore.
Context {lib : GoLib}.
Import strings.


Lemma parsedLines_noise parse lines :
  parsedLines parse (List.filter (fun line => negb (blankOrComment line)) lines)
  = parsedLines parse lines.
Proof.
  unfold parsedLines. induction lines as [|line lines IH]; [done|]. simpl.
  destruct (blankOrComment line) eqn:E; simpl; [done|]. by rewrite E, IH.
Qed.

Lemma parsedLines_sublist parse lines :
  (forall line entry, parse line = inl entry -> RawLine entry = line) ->
  map RawLine (parsedLines parse lines) `sublist_of` lines.
Proof.
  intros Hraw. unfold parsedLines. induction lines as [|line lines IH]; [done|]. simpl.
  destruct (blankOrComment line); [by apply sublist_cons|].
  destruct (parse line) as [e|] eqn:E; simpl; [|by apply sublist_cons].
  rewrite (Hraw _ _ E). by apply sublist_skip.
Qed.

Lemma parseSquidLine_RawLine line entry :
  parseSquidLine line = inl entry -> RawLine entry = line.
Proof.
  unfold parseSquidLine. destruct (_ <? 8); [done|].
  destruct (unixTimestamp _); [|done]. by intros [= <-].
Qed.

Lemma parseDNSLine_RawLine line entry :
  parseDNSLine line = inl entry -> RawLine entry = line.
Proof.
  unfold parseDNSLine. destruct (parseSimpleDNS line) as [e|err] eqn:E.
  - intros [= <-]. revert E. unfold parseSimpleDNS.
    destruct (_ <? 3); [done|]. destruct (time_Parse _ _); [|done]. by intros [= <-].
  - unfold parseDnsmasq.
    destruct (Index line "query[" =? -1); [done|].
    destruct (Index _ "] " =? -1); [done|].
    destruct (_ || _); [done|]. by intros [= <-].
Qed.

Lemma csvEntry_RawLine ts src dst bytes action row :
  RawLine (csvEntry ts src dst bytes action row) = Join row ",".
Proof.
  unfold csvEntry. destruct (cell row dst); [destruct (Contains _ _)|]; done.
Qed.

Lemma csvRows_sublist ts src dst bytes action rows :
  map RawLine (csvRows ts src dst bytes action rows)
  `sublist_of` map (fun row => Join row ",") rows.
Proof.
  unfold csvRows. induction rows as [|row rows IH]; [done|]. simpl.
  destruct (String.eqb _ ""); simpl; [by apply sublist_cons|].
  rewrite csvEntry_RawLine. by apply sublist_skip.
Qed.

(** X11. Every parser keeps the order of its input and the raw text of
    what it parsed: the raw lines of the entries returned form a
    subsequence of the lines of the file (for CSV, of the data rows
    joined by commas), so there are never more entries than lines, and
    no entry comes from a blank line or a comment. *)
Theorem Parse_keeps_order :
  (forall lines entries,
     SquidParser_Parse (Scan lines false) = inl entries ->
     map RawLine entries `sublist_of` lines
     /\ (length entries <= length lines)%nat
     /\ Forall (fun entry => blankOrComment (RawLine entry) = false) entries)
  /\ (forall lines entries,
        DNSParser_Parse (Scan lines false) = inl entries ->
        map RawLine entries `sublist_of` lines
        /\ (length entries <= length lines)%nat
        /\ Forall (fun entry => blankOrComment (RawLine entry) = false) entries)
  /\ (forall rows entries,
        CSVParser_Parse (CSVRows rows) = inl entries ->
        map RawLine entries `sublist_of` map (fun row => Join row ",") (tl rows)
        /\ (length entries < length rows)%nat).
Proof.
  assert (Hgen : forall parse lines,
            (forall line entry, parse line = inl entry -> RawLine entry = line) ->
            map RawLine (parsedLines parse lines) `sublist_of` lines
            /\ (length (parsedLines parse lines) <= length lines)%nat
            /\ Forall (fun entry => blankOrComment (RawLine entry) = false)
                      (parsedLines parse lines)).
  { intros parse lines Hraw.
    pose proof (parsedLines_sublist parse lines Hraw) as Hs.
    split; [done|]. split.
    - apply sublist_length in Hs. by rewrite length_map in Hs.
    - apply Forall_forall. intros e He.
      apply parsedLines_elem in He as (line & _ & Hb & Hp).
      by rewrite (Hraw _ _ Hp). }
  split; [|split].
  - intros lines entries. simpl. rewrite squid_loop. intros [= <-].
    apply Hgen, @parseSquidLine_RawLine.
  - intros lines entries. simpl. rewrite dns_loop. intros [= <-].
    apply Hgen, @parseDNSLine_RawLine.
  - intros rows entries. rewrite CSVParser_Parse_rows.
    destruct (ReadAll rows); [|done].
    destruct (Z.ltb_spec (len rows) 2); [done|].
    destruct (_ =? -1); [done|]. intros [= <-]. unfold csvEntries.
    pose proof (csvRows_sublist (timestampColumn (hd [] rows)) (sourceColumn (hd [] rows))
                  (destinationColumn (hd [] rows)) (bytesColumn (hd [] rows))
                  (actionColumn (hd [] rows)) (tl rows)) as Hs.
    split; [done|]. apply sublist_length in Hs. rewrite !length_map in Hs.
    unfold len in *. destruct rows; simpl in *; lia.
Qed.

Lemma existsb_tooLong_app l1 l2 :
  existsb bufio.tooLong (l1 ++ l2) = existsb bufio.tooLong l1 || existsb bufio.tooLong l2.
Proof. apply existsb_app. Qed.




Lemma Fields_clean s : Forall (fun f => f <> "" /\ hasSpace f = false) (Fields s).
Proof.
  induction s as [|c r IH]; simpl; [by constructor|].
  destruct (isSpace c) eqn:Ec; [done|].
  destruct r as [|c' r'].
  - constructor; [|by constructor]. split; [done|]. simpl. by rewrite Ec.
  - destruct (isSpace c') eqn:Ec'.
    + constructor; [|done]. split; [done|]. simpl. by rewrite Ec.
    + destruct (Fields (String c' r')) as [|f fs].
      * constructor; [|by constructor]. split; [done|]. simpl. by rewrite Ec.
      * inversion IH as [|? ? [_ Hf] Hfs]; subst. constructor; [|done].
        split; [done|]. simpl. by rewrite Ec, Hf.
Qed.

Lemma at_clean s i :
  (Z.of_nat i < len (Fields s)) ->
  at_ (Fields s) i <> "" /\ hasSpace (at_ (Fields s) i) = false.
Proof.
  unfold len, at_. intros Hi.
  pose proof (Fields_clean s) as H. rewrite Forall_forall in H.
  apply H, list_elem_of_In, nth_In. lia.
Qed.

Lemma isSpace_lowerByte c : isSpace (lowerByte c) = isSpace c.
Proof. destruct c as [[] [] [] [] [] [] [] []]; reflexivity. Qed.

Lemma hasSpace_ToLower s : hasSpace (ToLower s) = hasSpace s.
Proof. induction s as [|c r IH]; simpl; [done|]. by rewrite isSpace_lowerByte, IH. Qed.

Lemma hasSpace_sliceTo n s : hasSpace s = false -> hasSpace (sliceTo n s) = false.
Proof.
  revert n. induction s as [|c r IH]; intros [|n]; simpl; try done.
  intros [Hc Hr]%orb_false_elim. by rewrite Hc, IH.
Qed.

Lemma hasSpace_sliceFrom n s : hasSpace s = false -> hasSpace (sliceFrom n s) = false.
Proof.
  revert n. induction s as [|c r IH]; intros [|n]; simpl; try done.
  intros [Hc Hr]%orb_false_elim. by apply IH.
Qed.

Lemma hasSpace_TrimSuffix s suffix :
  hasSpace s = false -> hasSpace (TrimSuffix s suffix) = false.
Proof. unfold TrimSuffix. destruct (HasSuffix s suffix); [apply hasSpace_sliceTo|done]. Qed.

(** *** [strings.TrimSpace] trims once and for all *)

Lemma trimLeft_startsClean s : startsClean (trimLeft s) = true.
Proof.
  induction s as [|c r IH]; simpl; [done|].
  destruct (isSpace c) eqn:E; [done|]. simpl. by rewrite E.
Qed.

Lemma trimLeft_clean s : startsClean s = true -> trimLeft s = s.
Proof. destruct s as [|c r]; simpl; [done|]. by destruct (isSpace c). Qed.

Lemma trimRight_startsClean s : startsClean s = true -> startsClean (trimRight s) = true.
Proof.
  destruct s as [|c r]; simpl; [done|]. destruct (isSpace c) eqn:E; [done|].
  simpl. by rewrite E.
Qed.

Lemma trimRight_idem s : trimRight (trimRight s) = trimRight s.
Proof.
  induction s as [|c r IH]; simpl; [done|].
  destruct (isSpace c && String.eqb (trimRight r) "") eqn:E; [done|].
  simpl. by rewrite IH, E.
Qed.

Lemma TrimSpace_idem s : TrimSpace (TrimSpace s) = TrimSpace s.
Proof.
  unfold TrimSpace.
  rewrite (trimLeft_clean (trimRight (trimLeft s))).
  - apply trimRight_idem.
  - apply trimRight_startsClean, trimLeft_startsClean.
Qed.

Lemma SplitN2_second s sep a b :
  SplitN2 s sep = [a; b] -> hasSpace s = false -> hasSpace b = false.
Proof.
  unfold SplitN2. destruct (indexOf s sep) as [i|]; [|done].
  intros [= _ <-]. apply hasSpace_sliceFrom.
Qed.

(** X13. What the fields of a parsed line can be.  An entry of the
    Squid parser has a source address, a method and a URL that are not
    empty and hold no white space, and a status code without white
    space; an entry of the DNS parser has a non-empty source address and
    neither it nor the domain holds white space; an entry of the CSV
    parser has a source address and a status code with no white space
    around them. *)
Theorem Parse_fields_clean :
  (forall file entries,
     SquidParser_Parse file = inl entries ->
     Forall (fun entry =>
               SourceIP entry <> "" /\ hasSpace (SourceIP entry) = false
               /\ Method entry <> "" /\ hasSpace (Method entry) = false
               /\ URL entry <> "" /\ hasSpace (URL entry) = false
               /\ hasSpace (StatusCode entry) = false) entries)
  /\ (forall file entries,
        DNSParser_Parse file = inl entries ->
        Forall (fun entry =>
                  SourceIP entry <> "" /\ hasSpace (SourceIP entry) = false
                  /\ hasSpace (Domain entry) = false) entries)
  /\ (forall file entries,
        CSVParser_Parse file = inl entries ->
        Forall (fun entry =>
                  TrimSpace (SourceIP entry) = SourceIP entry
                  /\ TrimSpace (StatusCode entry) = StatusCode entry) entries).
Proof.
  split; [|split].
  - intros [|lines [|]] entries; simpl; try done. rewrite squid_loop.
    intros [= <-]. apply parsedLines_Forall. intros line entry.
    unfold parseSquidLine. destruct (Z.ltb_spec (len (Fields line)) 8); [done|].
    destruct (unixTimestamp _); [|done]. intros [= <-]. simpl.
    destruct (at_clean line 2) as [? ?]; [lia|].
    destruct (at_clean line 3) as [? H3]; [lia|].
    destruct (at_clean line 5) as [? ?]; [lia|].
    destruct (at_clean line 6) as [? ?]; [lia|].
    repeat (split; [done|]).
    destruct (SplitN2 (at_ (Fields line) 3) "/") as [|a [|b [|? ?]]] eqn:E; try done.
    by apply (SplitN2_second _ _ _ _ E).
  - intros [|lines [|]] entries; simpl; try done. rewrite dns_loop.
    intros [= <-]. apply parsedLines_Forall. intros line entry.
    unfold parseDNSLine. destruct (parseSimpleDNS line) as [e|err] eqn:E.
    + intros [= <-]. revert E. unfold parseSimpleDNS.
      destruct (Z.ltb_spec (len (Fields line)) 3); [done|].
      destruct (time_Parse _ _); [|done]. intros [= <-]. simpl.
      destruct (at_clean line 1) as [? ?]; [lia|].
      destruct (at_clean line 2) as [? ?]; [lia|].
      repeat (split; [done|]). rewrite hasSpace_ToLower. by apply hasSpace_TrimSuffix.
    + unfold parseDnsmasq.
      destruct (Index line "query[" =? -1); [done|].
      destruct (Index _ "] " =? -1); [done|].
      set (rest := sliceFrom (Z.to_nat (_ + 2)) _).
      destruct (Z.ltb_spec (len (Fields rest)) 3) as [?|Hlen]; [done|].
      simpl. destruct (negb _); [done|]. intros [= <-]. simpl.
      destruct (at_clean rest 0) as [? ?]; [lia|].
      destruct (at_clean rest 2) as [? ?]; [lia|].
      repeat (split; [done|]). rewrite hasSpace_ToLower. by apply hasSpace_TrimSuffix.
  - intros [| |rows] entries; try done. rewrite CSVParser_Parse_rows.
    destruct (ReadAll rows); [|done].
    destruct (_ <? 2); [done|]. destruct (_ =? -1); [done|].
    intros [= <-]. unfold csvEntries, csvRows.
    apply Forall_forall. intros e He.
    apply list_elem_of_In, in_flat_map in He as (row & _ & He).
    destruct (String.eqb _ ""); [done|]. destruct He as [<-|[]].
    unfold csvEntry.
    destruct (cell row (destinationColumn _)) as [c|]; [destruct (Contains _ _)|]; simpl;
      (split; [destruct (cell row (sourceColumn _))|destruct (cell row (actionColumn _))]);
      try done; apply TrimSpace_idem.
Qed.

(** *** [extractDomain] on [host:port] *)

Lemma indexOf_char_cons c r x :
  indexOf (String c r) (String x EmptyString)
  = if Ascii.eqb x c then Some O else S <$> indexOf r (String x EmptyString).
Proof.
  simpl. destruct (ascii_dec x c) as [->|Hne].
  - rewrite Ascii.eqb_refl. by destruct r.
  - apply Ascii.eqb_neq in Hne. by rewrite Hne.
Qed.

Lemma indexOf_char_nil x : indexOf EmptyString (String x EmptyString) = None.
Proof. reflexivity. Qed.

Lemma Contains_indexOf s substr : Contains s substr = false <-> indexOf s substr = None.
Proof.
  unfold Contains, Index. destruct (indexOf s substr) as [n|].
  - split; [|done]. intros H. apply Z.leb_gt in H. lia.
  - done.
Qed.

Lemma sliceTo_first_char s x i :
  indexOf s (String x EmptyString) = Some i ->
  indexOf (sliceTo i s) (String x EmptyString) = None.
Proof.
  revert i. induction s as [|c r IH]; intros i; [done|].
  rewrite indexOf_char_cons. destruct (Ascii.eqb x c) eqn:E.
  - by intros [= <-].
  - destruct (indexOf r (String x EmptyString)) as [j|] eqn:Er; [|done].
    intros [= <-]. cbn [sliceTo]. rewrite indexOf_char_cons, E. by rewrite (IH j).
Qed.

Lemma indexOf_char_app host x rest :
  indexOf host (String x EmptyString) = None ->
  indexOf (host +:+ String x rest) (String x EmptyString) = Some (String.length host).
Proof.
  induction host as [|c r IH].
  - intros _. rewrite app_Empty, indexOf_char_cons. by rewrite Ascii.eqb_refl.
  - rewrite app_String, !indexOf_char_cons. destruct (Ascii.eqb x c); [done|].
    destruct (indexOf r (String x EmptyString)) eqn:Er; [done|].
    intros _. by rewrite IH.
Qed.

Lemma sliceTo_app (s t : string) : sliceTo (String.length s) (s +:+ t) = s.
Proof.
  induction s as [|c r IH]; [by destruct t|]. rewrite app_String. simpl. by rewrite IH.
Qed.

Lemma lowerByte_colon c : Ascii.eqb ":" (lowerByte c) = Ascii.eqb ":" c.
Proof. destruct c as [[] [] [] [] [] [] [] []]; reflexivity. Qed.

Lemma indexOf_colon_ToLower s :
  indexOf (ToLower s) ":" = None <-> indexOf s ":" = None.
Proof.
  induction s as [|c r IH]; [done|]. cbn [ToLower].
  rewrite !indexOf_char_cons, lowerByte_colon. destruct (Ascii.eqb ":" c); [done|].
  destruct (indexOf (ToLower r) ":"), (indexOf r ":"); simpl; try done.
  - by pose proof (proj2 IH eq_refl).
  - by pose proof (proj1 IH eq_refl).
Qed.

(** X14. For a request target without a scheme (the [CONNECT] form
    [host:port]) [extractDomain] returns the lower-cased text before the
    first colon: the result never holds a colon, a target without a
    colon is returned whole, and the port never shows in the domain. *)
Theorem extractDomain_host_port (rawURL : string) :
  Contains rawURL "://" = false ->
  Contains (extractDomain rawURL) ":" = false
  /\ (Contains rawURL ":" = false -> extractDomain rawURL = ToLower rawURL)
  /\ (forall host port,
        rawURL = host +:+ ":" +:+ port -> Contains host ":" = false ->
        extractDomain rawURL = ToLower host).
Proof.
  intros Hscheme. unfold extractDomain. rewrite Hscheme. simpl negb. cbv iota.
  unfold SplitN2, at_. split; [|split].
  - apply Contains_indexOf, indexOf_colon_ToLower.
    destruct (indexOf rawURL ":") as [i|] eqn:E; simpl; [by apply sliceTo_first_char|done].
  - intros H%Contains_indexOf. by rewrite H.
  - intros host port -> H%Contains_indexOf.
    change (":" +:+ port) with (String ":" port).
    rewrite indexOf_char_app by done. simpl. by rewrite sliceTo_app.
Qed.

(** *** The byte counts *)

Lemma decimal_leadingDigits_ge acc s : 0 <= acc -> acc <= decimal acc (leadingDigits s).
Proof.
  revert acc. induction s as [|c r IH]; intros acc Hacc; cbn [leadingDigits]; [simpl; lia|].
  destruct (strconv.isDigit c) eqn:E; [|simpl; lia]. cbn [decimal].
  unfold strconv.isDigit in E. apply andb_true_iff in E as [E _]. apply Nat.leb_le in E.
  etrans; [|apply IH; lia]. lia.
Qed.

(** The loop of [ParseUint] in terms of the digits it reads. *)
Lemma digits_decimal s n :
  0 <= n <= strconv.maxVal ->
  strconv.digits s n
  = if strconv.maxVal <? decimal n (leadingDigits s) then (strconv.maxVal, Some strconv.ErrRange)
    else if String.eqb (leadingDigits s) s then (decimal n s, None)
         else (0, Some strconv.ErrSyntax).
Proof.
  revert n. induction s as [|c r IH]; intros n Hn; cbn [strconv.digits leadingDigits].
  - cbn [decimal]. by destruct (Z.ltb_spec strconv.maxVal n); [lia|].
  - destruct (strconv.isDigit c) eqn:E.
    + cbn [decimal]. assert (Hd : 0 <= Z.of_nat (nat_of_ascii c) - 48).
      { unfold strconv.isDigit in E. apply andb_true_iff in E as [E _].
        apply Nat.leb_le in E. lia. }
      set (n1 := n * 10 + (Z.of_nat (nat_of_ascii c) - 48)).
      pose proof (decimal_leadingDigits_ge n1 r) as Hge.
      assert (Hcut : strconv.maxVal / 10 + 1 = 1844674407370955162) by reflexivity.
      assert (Hmax : strconv.maxVal = 18446744073709551615) by reflexivity.
      destruct (Z.leb_spec (strconv.maxVal / 10 + 1) n) as [Hc|Hc].
      { destruct (Z.ltb_spec strconv.maxVal (decimal n1 (leadingDigits r))); [done|].
        unfold n1 in *. lia. }
      cbv zeta. fold n1. destruct (Z.ltb_spec strconv.maxVal n1) as [Ho|Ho].
      { destruct (Z.ltb_spec strconv.maxVal (decimal n1 (leadingDigits r))); [done|]. lia. }
      rewrite IH by (unfold n1; lia).
      replace (String.eqb (String c (leadingDigits r)) (String c r))
        with (String.eqb (leadingDigits r) r); [done|].
      simpl. by rewrite Ascii.eqb_refl.
    + cbn [decimal]. by destruct (Z.ltb_spec strconv.maxVal n); [lia|].
Qed.

Lemma ParseInt_byteCount s : fst (strconv.ParseInt s) = byteCount s.
Proof.
  unfold strconv.ParseInt, byteCount.
  change (match s with
          | String "+" r => (false, r)
          | String "-" r => (true, r)
          | _ => (false, s)
          end) with (signOf s).
  destruct (signOf s) as [neg body]. destruct body as [|c r]; [done|].
  rewrite digits_decimal by (by vm_compute).
  set (body := String c r). set (v := decimal 0 (leadingDigits body)).
  assert (Hv : 0 <= v) by (by apply decimal_leadingDigits_ge).
  assert (Hmax : strconv.maxVal = 18446744073709551615) by reflexivity.
  change (String.eqb body "") with false. cbv iota.
  destruct (Z.ltb_spec strconv.maxVal v) as [Ho|Ho].
  - rewrite orb_true_r. unfold clamp64. destruct neg; simpl.
    + destruct (Z.ltb_spec (2 ^ 63) strconv.maxVal); [simpl|]; lia.
    + destruct (Z.leb_spec (2 ^ 63) strconv.maxVal); [simpl|]; lia.
  - rewrite orb_false_r. destruct (String.eqb_spec (leadingDigits body) body) as [Heq|Hne]; [|done].
    fold v. assert (Hb : decimal 0 body = v) by (unfold v; by rewrite Heq).
    rewrite Hb. unfold clamp64. destruct neg; simpl.
    + destruct (Z.ltb_spec (2 ^ 63) v); simpl; lia.
    + destruct (Z.leb_spec (2 ^ 63) v); simpl; lia.
Qed.

Lemma byteCount_range text : - 2 ^ 63 <= byteCount text <= 2 ^ 63 - 1.
Proof.
  unfold byteCount. destruct (signOf text) as [neg body].
  destruct (String.eqb body ""); [lia|]. unfold clamp64.
  destruct (_ || _); lia.
Qed.

Lemma signOf_numeral (neg : bool) ds :
  leadingDigits ds = ds ->
  signOf ((if neg then "-" else "") +:+ ds) = (neg, ds).
Proof.
  intros Hds. destruct neg.
  - by change ("-" +:+ ds) with (String "-" ds).
  - change ("" +:+ ds) with ds. destruct ds as [|c r]; [done|].
    cbn [leadingDigits] in Hds. destruct (strconv.isDigit c) eqn:E; [|done].
    clear Hds. by destruct c as [[] [] [] [] [] [] [] []].
Qed.

(** X15. What the byte count of an entry is.  The Squid parser reads
    it from the fifth field of the line and the CSV parser from the
    trimmed cell of the bytes column (0 without such a cell); the DNS
    parser always gives 0.  The text is never a reason to drop the line:
    a Squid line is accepted exactly when it has eight fields and a time
    stamp.  A signed decimal numeral counts as its number brought into
    the range of [int64]; any other text counts as 0, unless it starts
    with digits that write a number beyond 64 bits, which count as the
    bound of [int64] on the side of the sign whatever follows them. *)
Theorem BytesSent_value :
  (forall line entry,
     parseSquidLine line = inl entry ->
     BytesSent entry = byteCount (at_ (Fields line) 4))
  /\ (forall line,
        (exists entry, parseSquidLine line = inl entry)
        <-> 8 <= len (Fields line) /\ is_Some (unixTimestamp (at_ (Fields line) 0)))
  /\ (forall file entries,
        DNSParser_Parse file = inl entries ->
        Forall (fun entry => BytesSent entry = 0) entries)
  /\ (forall ts src dst bytes action row,
        BytesSent (csvEntry ts src dst bytes action row)
        = match cell row bytes with
          | Some c => byteCount (TrimSpace c)
          | None => 0
          end)
  /\ (forall (neg : bool) ds,
        ds <> "" -> leadingDigits ds = ds ->
        byteCount ((if neg then "-" else "") +:+ ds)
        = clamp64 (if neg then - decimal 0 ds else decimal 0 ds))
  /\ (forall text,
        snd (signOf text) = "" \/ leadingDigits (snd (signOf text)) <> snd (signOf text) ->
        decimal 0 (leadingDigits (snd (signOf text))) <= strconv.maxVal ->
        byteCount text = 0)
  /\ (forall text,
        strconv.maxVal < decimal 0 (leadingDigits (snd (signOf text))) ->
        byteCount text = if fst (signOf text) then - 2 ^ 63 else 2 ^ 63 - 1)
  /\ (forall text, - 2 ^ 63 <= byteCount text <= 2 ^ 63 - 1).
Proof.
  split; [|split; [|split; [|split; [|split; [|split; [|split]]]]]].
  - intros line entry. unfold parseSquidLine. destruct (_ <? 8); [done|].
    destruct (unixTimestamp _); [|done]. intros [= <-]. apply ParseInt_byteCount.
  - intros line. unfold parseSquidLine. destruct (Z.ltb_spec (len (Fields line)) 8).
    + split; [by intros [? ?]|]. intros [? _]. lia.
    + destruct (unixTimestamp _) as [t|].
      * split; [by split; [lia|eexists]|]. intros _. by eexists.
      * split; [by intros [? ?]|]. by intros [_ [? ?]].
  - intros [|lines [|]] entries; simpl; try done. rewrite dns_loop.
    intros [= <-]. apply parsedLines_Forall. intros line entry.
    unfold parseDNSLine. destruct (parseSimpleDNS line) as [e|err] eqn:E.
    + intros [= <-]. revert E. unfold parseSimpleDNS.
      destruct (_ <? 3); [done|]. destruct (time_Parse _ _); [|done]. by intros [= <-].
    + unfold parseDnsmasq.
      destruct (Index line "query[" =? -1); [done|].
      destruct (Index _ "] " =? -1); [done|].
      destruct (_ || _); [done|]. by intros [= <-].
  - intros ts src dst bytes action row. unfold csvEntry.
    destruct (cell row dst) as [c|]; [destruct (Contains _ _)|]; simpl;
      (destruct (cell row bytes); [apply ParseInt_byteCount|done]).
  - intros neg ds Hne Hds. unfold byteCount. rewrite signOf_numeral by done.
    rewrite Hds, String.eqb_refl. cbn [orb].
    by destruct ds.
  - intros text H Hfit. unfold byteCount. destruct (signOf text) as [neg body].
    simpl in H, Hfit. destruct (String.eqb_spec body "") as [|Hne]; [done|].
    destruct H as [H|H]; [done|].
    destruct (String.eqb_spec (leadingDigits body) body); [done|].
    by destruct (Z.ltb_spec strconv.maxVal (decimal 0 (leadingDigits body))); [lia|].
  - intros text Hbig. unfold byteCount. destruct (signOf text) as [neg body].
    simpl in Hbig |- *. assert (Hmax : strconv.maxVal = 18446744073709551615) by reflexivity.
    destruct (String.eqb_spec body "") as [->|Hne]; [simpl in Hbig; lia|].
    destruct (Z.ltb_spec strconv.maxVal (decimal 0 (leadingDigits body))); [|lia].
    rewrite orb_true_r. unfold clamp64. destruct neg; lia.
  - apply byteCount_range.
Qed.

(** *** The columns of a CSV header *)

Lemma lastIndex_None name keys :
  lastIndex name keys = None <-> name ∉ keys.
Proof.
  induction keys as [|k keys IH]; simpl.
  - split; [intros _; apply not_elem_of_nil|done].
  - rewrite not_elem_of_cons, <- IH. destruct (lastIndex name keys) as [m|].
    + split; [done|]. by intros [_ ?].
    + destruct (String.eqb_spec k name) as [->|Hne].
      * split; [done|]. by intros [? _].
      * split; [|done]. intros _. split; [congruence|done].
Qed.

Lemma lastIndex_Some_1 name keys n :
  lastIndex name keys = Some n ->
  keys !! n = Some name /\ forall j, (n < j)%nat -> keys !! j <> Some name.
Proof.
  revert n. induction keys as [|k keys IH]; intros n; simpl; [done|].
  destruct (lastIndex name keys) as [m|] eqn:E.
  - intros [= <-]. destruct (IH m eq_refl) as [E1 E2]. split; [done|].
    intros [|j] Hj; [lia|]. simpl. apply E2. lia.
  - apply lastIndex_None in E.
    destruct (String.eqb_spec k name) as [->|Hne]; [|done].
    intros [= <-]. split; [done|]. intros [|j] Hj; [lia|]. simpl.
    intros Hin. apply E. by apply list_elem_of_lookup_2 in Hin.
Qed.

Lemma lastIndex_Some name keys n :
  lastIndex name keys = Some n <->
  keys !! n = Some name /\ forall j, (n < j)%nat -> keys !! j <> Some name.
Proof.
  split; [apply lastIndex_Some_1|]. intros [Hn Hlast].
  destruct (lastIndex name keys) as [m|] eqn:E.
  - apply lastIndex_Some_1 in E as [Hm Hlast']. f_equal.
    destruct (Nat.lt_trichotomy m n) as [H|[H|H]]; [|done|].
    + by apply Hlast' in H.
    + by apply Hlast in H.
  - apply lastIndex_None in E. exfalso. apply E. by apply list_elem_of_lookup_2 in Hn.
Qed.

Lemma lastIndex_lt name keys n : lastIndex name keys = Some n -> (n < length keys)%nat.
Proof. intros [H _]%lastIndex_Some_1. by apply lookup_lt_Some in H. Qed.

(** The header mapping sends a name to the last column that carries
    it. *)
Lemma mapColumns_fold_lookup header (m : gmap string Z) i0 name :
  fst (fold_left
         (fun '(m, i) col => (<[ToLower (TrimSpace col) := i]> m, i + 1))
         header (m, i0)) !! name
  = match lastIndex name (map headerKey header) with
    | Some n => Some (i0 + Z.of_nat n)
    | None => m !! name
    end.
Proof.
  revert m i0. induction header as [|col header IH]; intros m i0; simpl; [done|].
  rewrite IH. fold (headerKey col).
  destruct (lastIndex name (map headerKey header)) as [n|].
  - f_equal. lia.
  - destruct (String.eqb_spec (headerKey col) name) as [->|Hne].
    + rewrite lookup_insert_eq. f_equal. lia.
    + by rewrite lookup_insert_ne.
Qed.

Lemma mapColumns_lookup header name :
  mapColumns header !! name
  = (fun n => Z.of_nat n) <$> lastIndex name (map headerKey header).
Proof.
  unfold mapColumns. rewrite mapColumns_fold_lookup.
  destruct (lastIndex name (map headerKey header)); [done|]. apply lookup_empty.
Qed.

(** X16. Which column [findCol] picks from a header.  The names are
    tried in their order of priority against the header cells, trimmed
    and lower-cased; the column picked is that of the first name the
    header has, and when several cells carry that name, the last of
    them; the result is [-1] exactly when the header has none of the
    names, and otherwise an index into the header. *)
Theorem findCol_header (header names : list string) :
  (findCol (mapColumns header) names = -1
   <-> Forall (fun name => name ∉ map headerKey header) names)
  /\ -1 <= findCol (mapColumns header) names < len header
  /\ (forall before name after n,
        names = (before ++ name :: after)%list ->
        Forall (fun b => b ∉ map headerKey header) before ->
        map headerKey header !! n = Some name ->
        (forall j, (n < j)%nat -> map headerKey header !! j <> Some name) ->
        findCol (mapColumns header) names = Z.of_nat n).
Proof.
  split; [|split].
  - induction names as [|name names IH]; simpl.
    + split; [by constructor|done].
    + rewrite mapColumns_lookup, Forall_cons, <- IH, <- lastIndex_None.
      destruct (lastIndex name (map headerKey header)) as [n|]; simpl.
      * split; [lia|]. by intros [? _].
      * split; [done|]. by intros [_ ?].
  - induction names as [|name names IH]; simpl; [unfold len; lia|].
    rewrite mapColumns_lookup.
    destruct (lastIndex name (map headerKey header)) as [n|] eqn:E; simpl; [|done].
    apply lastIndex_lt in E. rewrite length_map in E. unfold len. lia.
  - intros before name after n -> Hbefore Hn Hlast.
    induction Hbefore as [|b before Hb _ IH]; simpl.
    + rewrite mapColumns_lookup. by rewrite (proj2 (lastIndex_Some _ _ _) (conj Hn Hlast)).
    + rewrite mapColumns_lookup. apply lastIndex_None in Hb. by rewrite Hb.
Qed.

(** *** Timestamps of CSV cells *)

Lemma firstLayout_None formats s :
  (forall layout, time_Parse layout s = None) -> firstLayout formats s = zeroTime.
Proof.
  intros H. induction formats as [|f formats IH]; simpl; [done|]. by rewrite H.
Qed.

Lemma parseFlexibleTime_TrimSpace s :
  parseFlexibleTime (TrimSpace s) = parseFlexibleTime s.
Proof. unfold parseFlexibleTime. by rewrite TrimSpace_idem. Qed.

Lemma cell_map (f : string -> string) row col :
  cell (map f row) col = f <$> cell row col.
Proof.
  unfold cell, len, at_. rewrite length_map.
  destruct (Z.leb_spec 0 col); [|done].
  destruct (Z.ltb_spec col (Z.of_nat (length row))); [|done]. simpl. f_equal.
  rewrite <- (map_nth f). apply nth_indep. rewrite length_map. lia.
Qed.

(** X17. The CSV parser reads every cell with the white space around it
    removed: trimming the cells of a row beforehand changes nothing in
    the entry but its raw line.  A timestamp cell that no layout accepts
    gives the zero time, and a row too short for a column leaves the
    field at its zero value. *)
Theorem csvEntry_trimmed (ts src dst bytes action : Z) (row : list string) :
  (let e := csvEntry ts src dst bytes action row in
   let e' := csvEntry ts src dst bytes action (map TrimSpace row) in
   Timestamp e' = Timestamp e /\ SourceIP e' = SourceIP e /\ Domain e' = Domain e
   /\ URL e' = URL e /\ Method e' = Method e /\ StatusCode e' = StatusCode e
   /\ BytesSent e' = BytesSent e)
  /\ (forall c, cell row ts = Some c ->
        (forall layout, time_Parse layout (TrimSpace c) = None) ->
        Timestamp (csvEntry ts src dst bytes action row) = zeroTime)
  /\ (cell row ts = None -> Timestamp (csvEntry ts src dst bytes action row) = zeroTime)
  /\ (cell row src = None -> SourceIP (csvEntry ts src dst bytes action row) = "")
  /\ (cell row bytes = None -> BytesSent (csvEntry ts src dst bytes action row) = 0)
  /\ (cell row action = None -> StatusCode (csvEntry ts src dst bytes action row) = "").
Proof.
  assert (Hshape : forall r,
    csvEntry ts src dst bytes action r
    = mkLogEntry
        (match cell r ts with Some c => parseFlexibleTime c | None => zeroTime end)
        (match cell r src with Some c => TrimSpace c | None => "" end)
        (match cell r dst with
         | Some c => if Contains (TrimSpace c) "://" then extractDomain (TrimSpace c)
                     else ToLower (TrimSpace c)
         | None => ""
         end)
        (match cell r dst with
         | Some c => if Contains (TrimSpace c) "://" then TrimSpace c else ""
         | None => ""
         end)
        ""
        (match cell r action with Some c => TrimSpace c | None => "" end)
        (match cell r bytes with
         | Some c => fst (strconv.ParseInt (TrimSpace c))
         | None => 0
         end)
        (Join r ",")).
  { intros r. unfold csvEntry.
    destruct (cell r dst); [destruct (Contains _ _)|]; done. }
  split; [|split; [|split; [|split; [|split]]]].
  - cbv zeta. rewrite !Hshape. cbn [Timestamp SourceIP Domain URL Method StatusCode BytesSent].
    rewrite !cell_map.
    destruct (cell row ts), (cell row src), (cell row dst), (cell row bytes),
      (cell row action); simpl;
      rewrite ?TrimSpace_idem, ?parseFlexibleTime_TrimSpace; done.
  - intros c Hc Hnone. rewrite Hshape, Hc. simpl. unfold parseFlexibleTime.
    by apply firstLayout_None.
  - intros H. by rewrite Hshape, H.
  - intros H. by rewrite Hshape, H.
  - intros H. by rewrite Hshape, H.
  - intros H. by rewrite Hshape, H.
Qed.

End ParserMore.

(** ** main.go: choosing a parser and scanning the files *)

Section MainMore.
Context {lib : GoLib}.
Import strings.

Lemma lowerByte_slash c : Ascii.eqb "/" (lowerByte c) = Ascii.eqb "/" c.
Proof. destruct c as [[] [] [] [] [] [] [] []]; reflexivity. Qed.

Lemma lowerByte_is_slash c : Ascii.eqb (lowerByte c) "/" = Ascii.eqb c "/".
Proof. destruct c as [[] [] [] [] [] [] [] []]; reflexivity. Qed.

Lemma lowerByte_is_dot c : Ascii.eqb (lowerByte c) "." = Ascii.eqb c ".".
Proof. destruct c as [[] [] [] [] [] [] [] []]; reflexivity. Qed.

Lemma indexOf_slash_ToLower s : indexOf (ToLower s) "/" = indexOf s "/".
Proof.
  induction s as [|c r IH]; [done|]. cbn [ToLower].
  rewrite !indexOf_char_cons, lowerByte_slash, IH. done.
Qed.

Lemma Contains_slash_ToLower s : Contains (ToLower s) "/" = Contains s "/".
Proof. unfold Contains, Index. by rewrite indexOf_slash_ToLower. Qed.

Lemma ToLower_empty s : ToLower s = "" <-> s = "".
Proof. by destruct s. Qed.

Lemma ToLower_eqb_empty s : String.eqb (ToLower s) "" = String.eqb s "".
Proof. by destruct s. Qed.

Lemma Ext_ToLower path : filepath.Ext (ToLower path) = ToLower (filepath.Ext path).
Proof.
  induction path as [|c r IH]; [done|]. cbn [ToLower filepath.Ext]. rewrite IH.
  destruct (filepath.Ext r) as [|c' e]; [|done]. cbn [ToLower].
  rewrite lowerByte_is_dot, Contains_slash_ToLower.
  by destruct (Ascii.eqb c "." && negb (Contains r "/")).
Qed.

Lemma stripSlashes_ToLower path :
  filepath.stripSlashes (ToLower path) = ToLower (filepath.stripSlashes path).
Proof.
  induction path as [|c r IH]; [done|]. cbn [ToLower filepath.stripSlashes].
  rewrite IH, lowerByte_is_slash, ToLower_eqb_empty.
  by destruct (Ascii.eqb c "/" && String.eqb (filepath.stripSlashes r) "").
Qed.

Lemma Split_slash_ToLower s : Split (ToLower s) "/" = map ToLower (Split s "/").
Proof.
  induction s as [|c r IH]; [done|]. cbn [ToLower Split].
  rewrite lowerByte_is_slash, IH. destruct (Ascii.eqb c "/"); [done|].
  pose proof (Split_nonempty r "/"). by destruct (Split r "/").
Qed.

Lemma last_map_ToLower l : List.last (map ToLower l) "" = ToLower (List.last l "").
Proof.
  induction l as [|x l IH]; [done|]. destruct l as [|y l]; [done|].
  change (List.last (map ToLower (x :: y :: l)) "")
    with (List.last (map ToLower (y :: l)) "").
  change (List.last (x :: y :: l) "") with (List.last (y :: l) ""). exact IH.
Qed.

Lemma Base_ToLower path : filepath.Base (ToLower path) = ToLower (filepath.Base path).
Proof.
  unfold filepath.Base. rewrite ToLower_eqb_empty.
  destruct (String.eqb path ""); [done|].
  rewrite stripSlashes_ToLower, Split_slash_ToLower, last_map_ToLower, ToLower_eqb_empty.
  by destruct (String.eqb (List.last _ "") "").
Qed.

(** A needle that extends another is found only where the other is. *)
Lemma prefix_app_l (p q s : string) :
  String.prefix (p +:+ q) s = true -> String.prefix p s = true.
Proof.
  revert s. induction p as [|a p IH]; intros s; [by destruct s|].
  rewrite app_String. destruct s as [|b s]; simpl; [done|].
  destruct (ascii_dec a b); [apply IH|done].
Qed.

Lemma indexOf_nil substr :
  indexOf "" substr = if String.prefix substr "" then Some O else None.
Proof. reflexivity. Qed.

Lemma indexOf_cons c r substr :
  indexOf (String c r) substr
  = if String.prefix substr (String c r) then Some O else S <$> indexOf r substr.
Proof. reflexivity. Qed.

Lemma indexOf_app_l (p q s : string) :
  is_Some (indexOf s (p +:+ q)) -> is_Some (indexOf s p).
Proof.
  induction s as [|c r IH].
  - rewrite !indexOf_nil. destruct (String.prefix (p +:+ q) "") eqn:E; [|by intros [? ?]].
    by rewrite (prefix_app_l _ _ _ E).
  - rewrite !indexOf_cons. destruct (String.prefix (p +:+ q) (String c r)) eqn:E.
    + by rewrite (prefix_app_l _ _ _ E).
    + destruct (String.prefix p (String c r)); [done|].
      destruct (indexOf r (p +:+ q)) as [n|]; [|by intros [? ?]].
      intros _. destruct IH as [m ->]; [by eexists|]. by eexists.
Qed.

Lemma Contains_app_l (p q s : string) :
  Contains s (p +:+ q) = true -> Contains s p = true.
Proof.
  unfold Contains, Index. intros H.
  destruct (indexOf s (p +:+ q)) as [n|] eqn:E; [|done].
  destruct (indexOf_app_l p q s) as [m ->]; [by rewrite E|].
  apply Z.leb_le. lia.
Qed.

(** X18. How the parser of a file is chosen.  A format of [squid],
    [dns] or [csv], in any letter case, decides alone; any other format
    leaves the choice to the path, where only two tests count: a last
    extension [.csv] gives the CSV parser, otherwise [dns] or [query]
    in the last element of the path gives the DNS parser, and everything
    else goes to the Squid parser, so that the tests for [dnsmasq],
    [squid], [proxy] and [access.log] never change the outcome.  The
    choice does not depend on the letter case of the path either. *)
Theorem selectParser_decision (format path : string) :
  selectParser format path
  = (if String.eqb (ToLower format) "squid" then SquidKind
     else if String.eqb (ToLower format) "dns" then DNSKind
     else if String.eqb (ToLower format) "csv" then CSVKind
     else if String.eqb (ToLower (filepath.Ext path)) ".csv" then CSVKind
     else if Contains (ToLower (filepath.Base path)) "dns"
             || Contains (ToLower (filepath.Base path)) "query" then DNSKind
     else SquidKind)
  /\ selectParser (ToLower format) (ToLower path) = selectParser format path.
Proof.
  assert (Hauto : forall p,
    autoDetect p
    = (if String.eqb (ToLower (filepath.Ext p)) ".csv" then CSVKind
       else if Contains (ToLower (filepath.Base p)) "dns"
               || Contains (ToLower (filepath.Base p)) "query" then DNSKind
       else SquidKind)).
  { intros p. unfold autoDetect.
    destruct (String.eqb _ ".csv"); [done|].
    destruct (Contains (ToLower (filepath.Base p)) "dns") eqn:Ed; [done|].
    destruct (Contains (ToLower (filepath.Base p)) "query"); [done|].
    destruct (Contains (ToLower (filepath.Base p)) "dnsmasq") eqn:Em.
    - apply (Contains_app_l "dns" "masq") in Em. congruence.
    - simpl. by destruct (_ || _). }
  assert (Hlow : forall p, autoDetect (ToLower p) = autoDetect p).
  { intros p. by rewrite !Hauto, Ext_ToLower, Base_ToLower, !ToLower_idem. }
  unfold selectParser. rewrite ToLower_idem, Hlow, Hauto. split.
  - by repeat destruct (String.eqb (ToLower format) _).
  - done.
Qed.

Lemma parseAll_loop (disk : Disk) format files acc :
  fold_left
    (fun allEntries f =>
       match parseFile disk format f with
       | inr _ => allEntries
       | inl entries => (allEntries ++ entries)%list
       end) files acc
  = (acc ++ flat_map (entriesOf disk format) files)%list.
Proof.
  revert acc. induction files as [|f files IH]; intros acc; simpl.
  - by rewrite app_nil_r.
  - rewrite IH. unfold entriesOf. destruct (parseFile disk format f); [|done].
    by rewrite <- app_assoc.
Qed.

Lemma parseAll_flat (disk : Disk) format files :
  parseAll disk format files = flat_map (entriesOf disk format) files.
Proof. unfold parseAll. by rewrite parseAll_loop. Qed.

Lemma Findings_app a l1 l2 :
  Findings (Analyze a (l1 ++ l2)) = (Findings (Analyze a l1) ++ Findings (Analyze a l2))%list.
Proof. rewrite !Analyze_Findings. by rewrite List.filter_app, map_app. Qed.

(** X19. A scan is the sum of its files.  The entries scanned are those
    of the files, in the order of the files; a file that cannot be
    parsed contributes nothing and stops nothing; the findings of the
    scan are the findings of each file in turn, and the numbers of
    entries scanned and of findings are the sums over the files. *)
Theorem scan_sums_files (a : Analyzer) (disk : Disk) (format : string)
    (files : list string) :
  parseAll disk format files = flat_map (entriesOf disk format) files
  /\ (forall f before after,
        files = (before ++ f :: after)%list -> failed (parseFile disk format f) ->
        scan a disk format files = scan a disk format (before ++ after))
  /\ Findings (scan a disk format files)
     = flat_map (fun f => Findings (scan a disk format [f])) files
  /\ TotalLogsScanned (scan a disk format files)
     = sumZ (map (fun f => TotalLogsScanned (scan a disk format [f])) files)
  /\ TotalFindings (scan a disk format files)
     = sumZ (map (fun f => TotalFindings (scan a disk format [f])) files).
Proof.
  assert (Hone : forall f, parseAll disk format [f] = entriesOf disk format f).
  { intros f. rewrite parseAll_flat. simpl. by rewrite app_nil_r. }
  split; [apply parseAll_flat|]. split; [|split; [|split]].
  - intros f before after -> Hfail. unfold scan. rewrite !parseAll_flat.
    rewrite !flat_map_app. simpl. unfold entriesOf at 2.
    by destruct (parseFile disk format f).
  - unfold scan. rewrite parseAll_flat.
    induction files as [|f files IH]; [done|]. cbn [flat_map].
    by rewrite Findings_app, IH, Hone.
  - unfold scan. rewrite parseAll_flat.
    induction files as [|f files IH]; [done|]. cbn [flat_map map sumZ foldr].
    fold (sumZ (map (fun f => TotalLogsScanned (Analyze a (parseAll disk format [f]))) files)).
    rewrite <- IH, !Analyze_TotalLogsScanned, Hone.
    unfold len. rewrite length_app. lia.
  - unfold scan. rewrite parseAll_flat.
    induction files as [|f files IH]; [done|]. cbn [flat_map map sumZ foldr].
    fold (sumZ (map (fun f => TotalFindings (Analyze a (parseAll disk format [f]))) files)).
    rewrite <- IH, !Analyze_TotalFindings, Hone, Findings_app.
    unfold len. rewrite length_app. lia.
Qed.

End MainMore.

(** ** The CSV report *)

Section ReporterMore.
Context {lib : GoLib} {tm : GoTime}.
Import strings.

(** *** [Sprintf] and [ParseInt] *)

Lemma digitByte_digit d :
  0 <= d < 10 ->
  strconv.isDigit (fmt.digitByte d) = true
  /\ Z.of_nat (nat_of_ascii (fmt.digitByte d)) - 48 = d
  /\ isSpace (fmt.digitByte d) = false.
Proof.
  intros H.
  assert (Hd : d = 0 \/ d = 1 \/ d = 2 \/ d = 3 \/ d = 4 \/ d = 5 \/ d = 6
               \/ d = 7 \/ d = 8 \/ d = 9) by lia.
  repeat destruct Hd as [->|Hd]; try subst d; by vm_compute.
Qed.

Lemma decimal_fmtDigits rounds u buf :
  0 <= u < 10 ^ Z.of_nat rounds ->
  exists k, forall acc,
    decimal acc (fmt.fmtDigits rounds u buf) = decimal (acc * k + u) buf.
Proof.
  revert u buf. induction rounds as [|rounds IH]; intros u buf Hu.
  { change (10 ^ Z.of_nat 0) with 1 in Hu. exists 1. intros acc. simpl.
    f_equal. lia. }
  cbn [fmt.fmtDigits]. destruct (Z.ltb_spec u 10) as [Hlt|Hge].
  - exists 10. intros acc. cbn [decimal].
    destruct (digitByte_digit u) as (_ & -> & _); [lia|done].
  - rewrite Nat2Z.inj_succ, Z.pow_succ_r in Hu by lia.
    destruct (IH (u / 10) (String (fmt.digitByte (u mod 10)) buf)) as [k Hk].
    { split; [apply Z.div_pos; lia|]. apply Z.div_lt_upper_bound; lia. }
    exists (k * 10). intros acc. rewrite Hk. cbn [decimal].
    destruct (digitByte_digit (u mod 10)) as (_ & -> & _).
    { apply Z.mod_pos_bound. lia. }
    f_equal. pose proof (Z.div_mod u 10). lia.
Qed.

Lemma leadingDigits_fmtDigits rounds u buf :
  0 <= u -> leadingDigits buf = buf ->
  leadingDigits (fmt.fmtDigits rounds u buf) = fmt.fmtDigits rounds u buf.
Proof.
  revert u buf. induction rounds as [|rounds IH]; intros u buf Hu Hbuf; [done|].
  cbn [fmt.fmtDigits]. destruct (Z.ltb_spec u 10).
  - cbn [leadingDigits]. destruct (digitByte_digit u) as (-> & _ & _); [lia|].
    by rewrite Hbuf.
  - apply IH; [apply Z.div_pos; lia|]. cbn [leadingDigits].
    destruct (digitByte_digit (u mod 10)) as (-> & _ & _); [|by rewrite Hbuf].
    apply Z.mod_pos_bound. lia.
Qed.

Lemma fmtDigits_head rounds u buf :
  0 <= u ->
  exists d r, 0 <= d < 10 /\ fmt.fmtDigits (S rounds) u buf = String (fmt.digitByte d) r.
Proof.
  revert u buf. induction rounds as [|rounds IH]; intros u buf Hu.
  - cbn [fmt.fmtDigits]. destruct (Z.ltb_spec u 10).
    + exists u, buf. split; [lia|done].
    + exists (u mod 10), buf. split; [apply Z.mod_pos_bound; lia|done].
  - change (fmt.fmtDigits (S (S rounds)) u buf)
      with (if u <? 10 then String (fmt.digitByte u) buf
            else fmt.fmtDigits (S rounds) (u / 10) (String (fmt.digitByte (u mod 10)) buf)).
    destruct (Z.ltb_spec u 10).
    + exists u, buf. split; [lia|done].
    + apply IH. apply Z.div_pos; lia.
Qed.

Lemma fmtDigits_hasSpace rounds u buf :
  0 <= u -> hasSpace buf = false -> hasSpace (fmt.fmtDigits rounds u buf) = false.
Proof.
  revert u buf. induction rounds as [|rounds IH]; intros u buf Hu Hbuf; [done|].
  cbn [fmt.fmtDigits]. destruct (Z.ltb_spec u 10).
  - cbn [hasSpace]. destruct (digitByte_digit u) as (_ & _ & ->); [lia|done].
  - apply IH; [apply Z.div_pos; lia|]. cbn [hasSpace].
    destruct (digitByte_digit (u mod 10)) as (_ & _ & ->); [|done].
    apply Z.mod_pos_bound. lia.
Qed.

Lemma Sprintf_d_hasSpace n : hasSpace (fmt.Sprintf_d n) = false.
Proof.
  unfold fmt.Sprintf_d.
  pose proof (fmtDigits_hasSpace 20 (Z.abs n) "" (Z.abs_nonneg n) eq_refl) as H.
  by destruct (n <? 0); [cbn [hasSpace]; rewrite H|].
Qed.

Lemma trimRight_hasSpace s : hasSpace s = false -> trimRight s = s.
Proof.
  induction s as [|c r IH]; [done|]. cbn [hasSpace trimRight].
  intros [Hc Hr]%orb_false_elim. by rewrite Hc, IH.
Qed.

Lemma TrimSpace_hasSpace s : hasSpace s = false -> TrimSpace s = s.
Proof.
  intros H. unfold TrimSpace. rewrite trimLeft_clean; [by apply trimRight_hasSpace|].
  destruct s as [|c r]; [done|]. simpl in *. by apply orb_false_elim in H as [-> _].
Qed.

Lemma ParseInt_unsigned c r :
  strconv.isDigit c = true ->
  strconv.ParseInt (String c r)
  = match strconv.digits (String c r) 0 with
    | (_, Some strconv.ErrSyntax) => (0, false)
    | (un, _) => if 2 ^ 63 <=? un then (2 ^ 63 - 1, false) else (un, true)
    end.
Proof. destruct c as [[] [] [] [] [] [] [] []]; intros H; try discriminate H; reflexivity. Qed.

Lemma ParseInt_Sprintf_d n :
  - 2 ^ 63 <= n <= 2 ^ 63 - 1 -> strconv.ParseInt (fmt.Sprintf_d n) = (n, true).
Proof.
  intros Hn. unfold fmt.Sprintf_d.
  destruct (decimal_fmtDigits 20 (Z.abs n) "") as [k Hk].
  { change (10 ^ Z.of_nat 20) with 100000000000000000000. lia. }
  specialize (Hk 0). cbn [decimal] in Hk. rewrite Z.mul_0_l, Z.add_0_l in Hk.
  pose proof (leadingDigits_fmtDigits 20 (Z.abs n) "" (Z.abs_nonneg n) eq_refl) as Hl.
  assert (Hdigits : strconv.digits (fmt.fmtDigits 20 (Z.abs n) "") 0 = (Z.abs n, None)).
  { rewrite digits_decimal by (by vm_compute). rewrite Hl, Hk, String.eqb_refl.
    assert (Hmax : strconv.maxVal = 18446744073709551615) by reflexivity.
    destruct (Z.ltb_spec strconv.maxVal (Z.abs n)); [lia|done]. }
  destruct (fmtDigits_head 19 (Z.abs n) "" (Z.abs_nonneg n)) as (d & r & Hd & Hr).
  rewrite Hr in *. destruct (digitByte_digit d Hd) as (Hdig & _ & _).
  destruct (Z.ltb_spec n 0) as [Hneg|Hpos].
  - unfold strconv.ParseInt. rewrite Hdigits. cbn [negb andb].
    destruct (Z.ltb_spec (2 ^ 63) (Z.abs n)); [lia|]. f_equal. lia.
  - rewrite ParseInt_unsigned, Hdigits by done.
    destruct (Z.leb_spec (2 ^ 63) (Z.abs n)); [lia|]. f_equal. lia.
Qed.

(** *** Reading the report back *)

Lemma csvHeader_columns :
  timestampColumn csvHeader = 0 /\ sourceColumn csvHeader = 1
  /\ destinationColumn csvHeader = 4 /\ bytesColumn csvHeader = 8
  /\ actionColumn csvHeader = 7.
Proof. by vm_compute. Qed.

Lemma readBack_hasSpace s : hasSpace s = false -> csv.readBack s = s.
Proof.
  induction s as [|c r IH]; [done|]. cbn [hasSpace].
  intros [Hc Hr]%orb_false_elim. specialize (IH Hr).
  cbn [csv.readBack]. destruct r as [|c' r']; [done|].
  destruct (Ascii.eqb_spec c "013") as [->|_]; [done|]. cbn [andb]. by rewrite IH.
Qed.

Lemma rereadable_fields f :
  rereadable f = true ->
  (TrimSpace (fSourceIP f) = fSourceIP f /\ csv.readBack (fSourceIP f) = fSourceIP f)
  /\ (TrimSpace (fDomain f) = fDomain f /\ csv.readBack (fDomain f) = fDomain f)
  /\ ToLower (fDomain f) = fDomain f
  /\ Contains (fDomain f) "://" = false
  /\ String.eqb (fDomain f) "" = false
  /\ (TrimSpace (fStatusCode f) = fStatusCode f
      /\ csv.readBack (fStatusCode f) = fStatusCode f)
  /\ - 2 ^ 63 <= fBytesSent f <= 2 ^ 63 - 1.
Proof.
  unfold rereadable. rewrite !andb_true_iff, !negb_true_iff, !String.eqb_eq.
  rewrite Z.leb_le, Z.leb_le. tauto.
Qed.

Lemma csvEntry_csvRow f :
  rereadable f = true ->
  csvEntry 0 1 4 8 7 (map csv.readBack (csvRow f)) = rereadEntry f.
Proof.
  intros ([Hsrc Hsrc'] & [Hdom Hdom'] & Hlow & Hurl & _ & [Hst Hst'] & Hbytes)%rereadable_fields.
  unfold csvEntry, rereadEntry.
  change (cell (map csv.readBack (csvRow f)) 0)
    with (Some (csv.readBack (at_ (csvRow f) 0))).
  change (cell (map csv.readBack (csvRow f)) 1) with (Some (csv.readBack (fSourceIP f))).
  change (cell (map csv.readBack (csvRow f)) 4) with (Some (csv.readBack (fDomain f))).
  change (cell (map csv.readBack (csvRow f)) 8)
    with (Some (csv.readBack (fmt.Sprintf_d (fBytesSent f)))).
  change (cell (map csv.readBack (csvRow f)) 7) with (Some (csv.readBack (fStatusCode f))).
  cbv beta iota zeta. rewrite Hsrc', Hdom', Hst', Hsrc, Hdom, Hurl, Hlow, Hst.
  rewrite (readBack_hasSpace (fmt.Sprintf_d _)) by apply Sprintf_d_hasSpace.
  rewrite TrimSpace_hasSpace by apply Sprintf_d_hasSpace.
  by rewrite ParseInt_Sprintf_d.
Qed.

Lemma csvEntries_csvRow fs :
  forallb rereadable fs = true ->
  csvEntries csvHeader (map (map csv.readBack) (map csvRow fs)) = map rereadEntry fs.
Proof.
  unfold csvEntries. destruct csvHeader_columns as (-> & -> & -> & -> & ->).
  induction fs as [|f fs IH]; [done|]. cbn [forallb map].
  intros [Hf Hfs]%andb_true_iff. unfold csvRows in *. cbn [flat_map].
  rewrite IH, csvEntry_csvRow by done.
  apply rereadable_fields in Hf as (_ & _ & _ & _ & Hne & _).
  cbn [rereadEntry Domain]. by rewrite Hne.
Qed.

Lemma writeRows_record written fs :
  writeRows record written fs = Some (written ++ map csvRow fs)%list.
Proof.
  revert written. induction fs as [|f fs IH]; intros written; cbn [writeRows map].
  - by rewrite app_nil_r.
  - unfold record at 1. by rewrite IH, <- app_assoc.
Qed.

Lemma reportCSV_record s :
  reportCSV record s [] = Some (csvHeader :: map csvRow (Findings s)).
Proof. unfold reportCSV, record at 1. by rewrite writeRows_record. Qed.

(** No record of a report is an empty line to the reader. *)
Lemma fileOf_report fs :
  csv.fileOf (csvHeader :: map csvRow fs)
  = CSVRows (csvHeader :: map (map csv.readBack) (map csvRow fs)).
Proof.
  unfold csv.fileOf. f_equal.
  replace (List.filter _ (csvHeader :: map csvRow fs)) with (csvHeader :: map csvRow fs).
  - done.
  - cbn [List.filter]. change (negb (csv.emptyLine csvHeader)) with true. cbv iota.
    f_equal. symmetry. induction fs as [|f fs IH]; [done|]. cbn [map List.filter].
    change (negb (csv.emptyLine (csvRow f))) with true. cbv iota. by rewrite IH.
Qed.

Lemma ReadAll_report fs :
  ReadAll (csvHeader :: map (map csv.readBack) (map csvRow fs))
  = Some (csvHeader :: map (map csv.readBack) (map csvRow fs)).
Proof.
  unfold ReadAll.
  replace (forallb _ (map (map csv.readBack) (map csvRow fs))) with true; [done|].
  symmetry. by induction fs as [|f fs IH].
Qed.

Lemma CSVParser_Parse_report fs :
  forallb rereadable fs = true ->
  CSVParser_Parse (csv.fileOf (csvHeader :: map csvRow fs))
  = match fs with
    | [] => inr ErrNoDataRows
    | _ :: _ => inl (map rereadEntry fs)
    end.
Proof.
  intros Hfs. rewrite fileOf_report, CSVParser_Parse_rows, ReadAll_report.
  destruct fs as [|f fs]; [done|].
  replace (len (csvHeader :: map (map csv.readBack) (map csvRow (f :: fs))) <? 2) with false.
  2:{ symmetry. apply Z.ltb_ge. unfold len. cbn [length map]. lia. }
  cbn [hd tl]. destruct csvHeader_columns as (_ & _ & -> & _).
  change (4 =? -1) with false. cbv iota. by rewrite csvEntries_csvRow.
Qed.

(** X20. A CSV report can be read back by the CSV parser.  When no
    write fails, [reportCSV] writes its header and one record per
    finding.  On the file that holds these records the parser finds its
    columns in the header, the destination in the column [domain] and
    not [url]; it refuses a report without findings for having no data
    rows, and otherwise returns one entry per finding, in order, with
    the source address, domain, status code and byte count of the
    finding and neither URL nor method.  The findings are those whose
    source address, domain and status code have no white space around
    them and no carriage return before a newline inside, and whose
    domain is in lower case, not empty and no URL. *)
Theorem reportCSV_read_back (s : Summary) :
  forallb rereadable (Findings s) = true ->
  exists records,
    reportCSV record s [] = Some records
    /\ len records = 1 + len (Findings s)
    /\ destinationColumn (hd [] records) = 4
    /\ match Findings s with
       | [] => CSVParser_Parse (csv.fileOf records) = inr ErrNoDataRows
       | _ :: _ =>
           exists entries,
             CSVParser_Parse (csv.fileOf records) = inl entries
             /\ Forall2 sameHit (Findings s) entries
       end.
Proof.
  intros Hs. exists (csvHeader :: map csvRow (Findings s)).
  split; [apply reportCSV_record|]. split.
  { unfold len. cbn [length]. rewrite length_map. lia. }
  split; [apply csvHeader_columns|].
  rewrite CSVParser_Parse_report by done.
  destruct (Findings s) as [|f fs] eqn:E; [done|].
  eexists. split; [done|]. clear E Hs. generalize (f :: fs). clear.
  intros l. induction l as [|x l IH]; constructor; [|done]. by repeat split.
Qed.

Lemma filter_all {A} (p : A -> bool) l :
  Forall (fun x => p x = true) l -> List.filter p l = l.
Proof. induction 1 as [|x l Hx _ IH]; [done|]. simpl. by rewrite Hx, IH. Qed.

Lemma Analyze_UniqueUsers a entries :
  UniqueUsers (Analyze a entries) = Z.of_nat (size (ByUser (Analyze a entries))).
Proof. done. Qed.

Lemma Analyze_UniqueServices a entries :
  UniqueServices (Analyze a entries) = Z.of_nat (size (ByService (Analyze a entries))).
Proof. done. Qed.

(** The findings of a scan of the entries read back from a report. *)
Lemma rescan_findings a entries :
  let s := Analyze a entries in
  Findings (Analyze a (map rereadEntry (Findings s)))
  = map (fun f => matchedFinding a (rereadEntry f)) (Findings s)
  /\ Forall (fun f => sameFinding f (matchedFinding a (rereadEntry f))) (Findings s).
Proof.
  intros s. subst s. rewrite (Analyze_Findings a (map _ _)).
  assert (H : Forall (fun f => matched a (rereadEntry f) = true
                              /\ sameFinding f (matchedFinding a (rereadEntry f)))
                     (Findings (Analyze a entries))).
  { rewrite Analyze_Findings. apply Forall_forall. intros f Hf.
    apply list_elem_of_In, in_map_iff in Hf as (entry & <- & He).
    apply filter_In in He as [_ Hm]. unfold matched, matchedFinding in *.
    cbn [rereadEntry Domain findingOf fDomain].
    split; [done|]. by repeat split. }
  split.
  - rewrite filter_all; [by rewrite map_map|].
    apply Forall_map. eapply Forall_impl; [exact H|]. by intros f [? _].
  - eapply Forall_impl; [exact H|]. by intros f [_ ?].
Qed.

(** X21. Scanning the CSV report of a scan finds the same hits.  For a
    scan with at least one finding, all of them findings that can be
    read back as above, the entries that the CSV parser reads from the
    file of the report are as many as the findings, and their scan with
    the same catalogue
    has the same findings up to time stamp, URL and method, in the same
    order, and the same counts per source address and per service. *)
Theorem report_rescan (a : Analyzer) (entries : list LogEntry) :
  let s := Analyze a entries in
  forallb rereadable (Findings s) = true ->
  0 < TotalFindings s ->
  exists records again,
    reportCSV record s [] = Some records
    /\ CSVParser_Parse (csv.fileOf records) = inl again
    /\ TotalLogsScanned (Analyze a again) = TotalFindings s
    /\ TotalFindings (Analyze a again) = TotalFindings s
    /\ UniqueUsers (Analyze a again) = UniqueUsers s
    /\ UniqueServices (Analyze a again) = UniqueServices s
    /\ ByUser (Analyze a again) = ByUser s
    /\ ByService (Analyze a again) = ByService s
    /\ Forall2 sameFinding (Findings s) (Findings (Analyze a again)).
Proof.
  intros s Hs Hpos. subst s.
  exists (csvHeader :: map csvRow (Findings (Analyze a entries))),
         (map rereadEntry (Findings (Analyze a entries))).
  split; [apply reportCSV_record|].
  rewrite Analyze_TotalFindings in *.
  split.
  { rewrite CSVParser_Parse_report by done.
    destruct (Findings (Analyze a entries)); [done|done]. }
  destruct (rescan_findings a entries) as [Hf Hsame]. cbv zeta in Hf, Hsame.
  assert (Husers : map fSourceIP (Findings (Analyze a (map rereadEntry (Findings (Analyze a entries)))))
                   = map fSourceIP (Findings (Analyze a entries))).
  { rewrite Hf, map_map. apply map_ext_Forall.
    eapply Forall_impl; [exact Hsame|]. by intros f (? & _). }
  assert (Hservices : map fServiceName (Findings (Analyze a (map rereadEntry (Findings (Analyze a entries)))))
                   = map fServiceName (Findings (Analyze a entries))).
  { rewrite Hf, map_map. apply map_ext_Forall.
    eapply Forall_impl; [exact Hsame|]. by intros f (_ & ? & _). }
  rewrite !Analyze_UniqueUsers, !Analyze_UniqueServices.
  rewrite (Analyze_ByUser a (map _ _)), (Analyze_ByService a (map _ _)), Husers, Hservices.
  rewrite <- Analyze_ByUser, <- Analyze_ByService.
  rewrite Analyze_TotalLogsScanned, Hf.
  assert (Hlen : TotalFindings (Analyze a (map rereadEntry (Findings (Analyze a entries))))
                 = len (Findings (Analyze a entries))).
  { rewrite Analyze_TotalFindings, Hf. unfold len. by rewrite length_map. }
  unfold len. rewrite length_map. do 6 (split; [done|]).
  clear -Hsame. induction Hsame; by constructor.
Qed.

End ReporterMore.

(** ** The added properties on sample data *)

Section MoreSamples.
Import strings.

(** The hypothesis of [Analyze_hit_counts] holds of a log of three
    entries. *)
Lemma Analyze_hit_counts_witness :
  let a := mkAnalyzer (insertServices [openai] ∅) in
  let entry src dom := mkLogEntry zeroTime src dom "" "" "" 0 "" in
  let entries := [entry "10.0.0.1" "api.openai.com"; entry "10.0.0.2" "example.org";
                  entry "10.0.0.1" "chat.openai.com"] in
  default 0 (ByUser (Analyze a entries) !! "10.0.0.1")
  = occurrences "10.0.0.1" (map fSourceIP (Findings (Analyze a entries)))
  /\ (is_Some (ByUser (Analyze a entries) !! "10.0.0.1")
      <-> "10.0.0.1" ∈ map fSourceIP (Findings (Analyze a entries)))
  /\ default 0 (ByService (Analyze a entries) !! "10.0.0.1")
     = occurrences "10.0.0.1" (map fServiceName (Findings (Analyze a entries)))
  /\ (is_Some (ByService (Analyze a entries) !! "10.0.0.1")
      <-> "10.0.0.1" ∈ map fServiceName (Findings (Analyze a entries))).
Proof.
  intros a entry entries. apply (Analyze_hit_counts a entries "10.0.0.1").
  vm_compute. discriminate.
Defined.

(** The hypothesis of [Analyze_app] holds of two short logs. *)
Lemma Analyze_app_witness :
  let a := mkAnalyzer (insertServices [openai] ∅) in
  let entry src dom := mkLogEntry zeroTime src dom "" "" "" 0 "" in
  let l1 := [entry "10.0.0.1" "api.openai.com"; entry "10.0.0.2" "example.org"] in
  let l2 := [entry "10.0.0.1" "chat.openai.com"] in
  Findings (Analyze a (l1 ++ l2)) = (Findings (Analyze a l1) ++ Findings (Analyze a l2))%list
  /\ TotalLogsScanned (Analyze a (l1 ++ l2))
     = TotalLogsScanned (Analyze a l1) + TotalLogsScanned (Analyze a l2)
  /\ TotalFindings (Analyze a (l1 ++ l2))
     = TotalFindings (Analyze a l1) + TotalFindings (Analyze a l2)
  /\ (forall k,
        default 0 (ByUser (Analyze a (l1 ++ l2)) !! k)
        = default 0 (ByUser (Analyze a l1) !! k) + default 0 (ByUser (Analyze a l2) !! k))
  /\ (forall k,
        default 0 (ByService (Analyze a (l1 ++ l2)) !! k)
        = default 0 (ByService (Analyze a l1) !! k)
          + default 0 (ByService (Analyze a l2) !! k)).
Proof.
  intros a entry l1 l2. apply (Analyze_app a l1 l2). vm_compute. discriminate.
Defined.

(** The hypothesis of [extractDomain_host_port] holds of the target of
    a [CONNECT] request. *)
Lemma extractDomain_host_port_witness :
  Contains (@extractDomain sampleLib "API.openai.com:443") ":" = false
  /\ (Contains "API.openai.com:443" ":" = false ->
      @extractDomain sampleLib "API.openai.com:443" = ToLower "API.openai.com:443")
  /\ (forall host port,
        "API.openai.com:443" = host +:+ ":" +:+ port -> Contains host ":" = false ->
        @extractDomain sampleLib "API.openai.com:443" = ToLower host).
Proof. apply (@extractDomain_host_port sampleLib "API.openai.com:443"). reflexivity. Defined.

(** The hypothesis of [reportCSV_read_back] holds of the summary of a
    scan with two findings. *)
Lemma reportCSV_read_back_witness :
  let a := mkAnalyzer (insertServices [openai] ∅) in
  let entry src dom := mkLogEntry (mkTime 2025 6 10 8 30 0 0) src dom "" "GET" "200" 1500 "" in
  let s := Analyze a [entry "10.0.0.1" "api.openai.com"; entry "10.0.0.2" "example.org";
                      entry "10.0.0.1" "chat.openai.com"] in
  exists records,
    @reportCSV sampleTime _ record s [] = Some records
    /\ len records = 1 + len (Findings s)
    /\ destinationColumn (hd [] records) = 4
    /\ match Findings s with
       | [] => @CSVParser_Parse sampleLib (csv.fileOf records) = inr ErrNoDataRows
       | _ :: _ =>
           exists entries,
             @CSVParser_Parse sampleLib (csv.fileOf records) = inl entries
             /\ Forall2 sameHit (Findings s) entries
       end.
Proof.
  intros a entry s. apply (@reportCSV_read_back sampleLib sampleTime s).
  vm_compute. reflexivity.
Defined.

(** The hypotheses of [report_rescan] hold of the same scan. *)
Lemma report_rescan_witness :
  let a := mkAnalyzer (insertServices [openai] ∅) in
  let entry src dom := mkLogEntry (mkTime 2025 6 10 8 30 0 0) src dom "" "GET" "200" 1500 "" in
  let s := Analyze a [entry "10.0.0.1" "api.openai.com"; entry "10.0.0.2" "example.org";
                      entry "10.0.0.1" "chat.openai.com"] in
  exists records again,
    @reportCSV sampleTime _ record s [] = Some records
    /\ @CSVParser_Parse sampleLib (csv.fileOf records) = inl again
    /\ TotalLogsScanned (Analyze a again) = TotalFindings s
    /\ TotalFindings (Analyze a again) = TotalFindings s
    /\ UniqueUsers (Analyze a again) = UniqueUsers s
    /\ UniqueServices (Analyze a again) = UniqueServices s
    /\ ByUser (Analyze a again) = ByUser s
    /\ ByService (Analyze a again) = ByService s
    /\ Forall2 sameFinding (Findings s) (Findings (Analyze a again)).
Proof.
  intros a entry s.
  apply (@report_rescan sampleLib sampleTime a
           [entry "10.0.0.1" "api.openai.com"; entry "10.0.0.2" "example.org";
            entry "10.0.0.1" "chat.openai.com"]).
  - vm_compute. reflexivity.
  - vm_compute. reflexivity.
Defined.

End MoreSamples.
